(** * immich-kiosk-scheduler: the date-range matching engine

    A shallow embedding of [internal/scheduler/scheduler.go] together with
    the parts of the Go runtime and standard library that the package
    calls ([strings.Split], [strconv.Atoi], [fmt.Errorf], slice indexing,
    [int] arithmetic), followed by the properties of the engine.

    Conventions.
    - A Go [int] is a [Z]; additions wrap around at 64 bits ([int_add]).
    - A Go [string] is a [string] (a sequence of bytes).
    - A run-time panic (slice index out of range) is [None]; a function of
      the package that can panic returns an [option].
    - A Go [(value, error)] result is a [result]: [Ok v] when the error is
      [nil], [Err e] otherwise (the zero values returned with an error are
      not kept). *)

From Stdlib Require Import ZArith List String Ascii Bool Lia DecimalString.
From stdpp Require Import base tactics option list numbers.

Local Open Scope string_scope.
Local Open Scope list_scope.
Local Open Scope Z_scope.
Local Open Scope stdpp_scope.

(** ** The Go runtime and standard library, as far as the package uses it *)

Module Go.

(** [int] on a 64-bit platform: two's complement wrap-around. *)
Definition int_min : Z := - 2 ^ 63.
Definition int_max : Z := 2 ^ 63 - 1.
Definition wrap (z : Z) : Z := (z + 2 ^ 63) mod 2 ^ 64 - 2 ^ 63.
Definition int_add (a b : Z) : Z := wrap (a + b).
Definition in_int (z : Z) : bool := (int_min <=? z) && (z <=? int_max).

(** [a[i]] on a slice: [None] is the index-out-of-range panic. *)
Definition index {A : Type} (a : list A) (i : Z) : option A :=
  if i <? 0 then None else a !! Z.to_nat i.

(** [strings.Split(s, sep)] for a one-byte separator: the substrings
    between the separators, one more than there are separators. *)
Fixpoint Split (s : string) (sep : ascii) : list string :=
  match s with
  | EmptyString => [EmptyString]
  | String c s' =>
      if Ascii.eqb c sep then EmptyString :: Split s' sep
      else match Split s' sep with
           | p :: ps => String c p :: ps
           | [] => [String c EmptyString]
           end
  end.

Definition is_digit (c : ascii) : bool :=
  let n := Z.of_N (N_of_ascii c) in (48 <=? n) && (n <=? 57).

Definition digit_val (c : ascii) : Z := Z.of_N (N_of_ascii c) - 48.

(** The digit loop of [strconv.ParseUint] in base 10: [n = n*10 + d],
    a syntax error ([None]) on a byte that is not a decimal digit. *)
Fixpoint digits (n : Z) (s : string) : option Z :=
  match s with
  | EmptyString => Some n
  | String c s' =>
      if is_digit c then digits (n * 10 + digit_val c) s' else None
  end.

(** [strconv.Atoi(s)]: an optional sign, then at least one decimal digit
    and nothing else; [None] stands for a non-nil error (syntax error, or
    value out of the range of [int]). *)
Definition Atoi (s : string) : option Z :=
  match s with
  | EmptyString => None
  | String c rest =>
      let neg := Ascii.eqb c "-" in
      let body := if neg || Ascii.eqb c "+" then rest else s in
      match body with
      | EmptyString => None
      | _ =>
          n ← digits 0 body;
          let v := if neg then - n else n in
          if in_int v then Some v else None
      end
  end.

(** [fmt.Errorf(format, operands...)]: the error value keeps the format
    and its operands; [%w] wraps another error. *)
Inductive error : Type :=
| Errorf (format : string) (operands : list operand)
with operand : Type :=
| OString (s : string)
| OError (e : error).

(** A [(value, error)] result. *)
Inductive result (A : Type) : Type :=
| Ok (a : A)
| Err (e : error).
Arguments Ok {A} a.
Arguments Err {A} e.

Definition is_Err {A : Type} (r : result A) : Prop :=
  match r with Ok _ => False | Err _ => True end.

Section Message.
(** [Quote] is [strconv.Quote], what the verb [%q] prints for a
    string; it is a parameter of the rendering. *)
Variable Quote : string → string.

(** [fmt.Sprintf] for the verbs the package uses, over operands that
    are already strings: [%q] quotes, [%s] and [%w] (the wrapped
    error's message) print the operand as it is; a verb without an
    operand prints as [%!v(MISSING)]. *)
Fixpoint Sprintf (format : string) (operands : list string) : string :=
  match format with
  | EmptyString => EmptyString
  | String "%" (String v format') =>
      match operands with
      | o :: operands' =>
          String.append
            (if Ascii.eqb v "q" then Quote o else o)
            (Sprintf format' operands')
      | [] =>
          String "%" (String "!" (String v
            (String.append "(MISSING)" (Sprintf format' []))))
      end
  | String c format' => String c (Sprintf format' operands)
  end.

(** [err.Error()]. *)
Fixpoint Error (e : error) : string :=
  match e with
  | Errorf format operands =>
      Sprintf format
        (List.map (fun o => match o with
                            | OString s => s
                            | OError e' => Error e'
                            end) operands)
  end.
End Message.

(** [strconv.Itoa] as the verb [%d] prints an [int]: decimal digits
    behind a minus sign for a negative number. *)
Definition Itoa (z : Z) : string :=
  DecimalString.NilZero.string_of_int (Z.to_int z).

(** An [error] result that is [nil]. *)
Definition no_error : result unit := Ok tt.

(** Package [regexp], for the expressions the repository compiles:
    literals, character classes given by their ranges, concatenation,
    alternation and the repetition of a class. Every item consumes one
    ASCII character, so matching goes byte by byte. *)
Inductive regex : Type :=
| Lit (c : ascii)
| Class (ranges : list (ascii * ascii))
| Cat (r1 r2 : regex)
| Alt (r1 r2 : regex)
| StarClass (ranges : list (ascii * ascii)).

Definition in_range (c : ascii) (r : ascii * ascii) : bool :=
  (N_of_ascii (fst r) <=? N_of_ascii c)%N
  && (N_of_ascii c <=? N_of_ascii (snd r))%N.

Definition in_class (c : ascii) (ranges : list (ascii * ascii)) : bool :=
  existsb (in_range c) ranges.

(** [class*] in front of the continuation [k]. *)
Fixpoint accept_star (ranges : list (ascii * ascii)) (s : string)
    (k : string -> bool) : bool :=
  k s ||
  match s with
  | EmptyString => false
  | String c s' => in_class c ranges && accept_star ranges s' k
  end.

(** [accept r s k]: some prefix of [s] matches [r] and [k] accepts the
    rest. *)
Fixpoint accept (r : regex) (s : string) (k : string -> bool) : bool :=
  match r with
  | Lit c =>
      match s with
      | EmptyString => false
      | String c' s' => Ascii.eqb c' c && k s'
      end
  | Class ranges =>
      match s with
      | EmptyString => false
      | String c' s' => in_class c' ranges && k s'
      end
  | Cat r1 r2 => accept r1 s (fun s' => accept r2 s' k)
  | Alt r1 r2 => accept r1 s k || accept r2 s k
  | StarClass ranges => accept_star ranges s k
  end.

(** [re.MatchString(s)] for an expression anchored at both ends,
    [^r$]: the whole of [s] matches [r]. *)
Definition MatchString (r : regex) (s : string) : bool :=
  accept r s (fun rest => match rest with EmptyString => true | _ => false end).

(** A Go [map[string]V]: the keys with their values, each key once. *)
Definition map_ (V : Type) : Type := list (string * V).

(** [m[k]] with the comma-ok form: the value, if the key is present. *)
Fixpoint map_get {V : Type} (m : map_ V) (k : string) : option V :=
  match m with
  | [] => None
  | (k', v) :: m' => if String.eqb k' k then Some v else map_get m' k
  end.

(** [m[k] = v]. *)
Fixpoint map_set {V : Type} (m : map_ V) (k : string) (v : V) : map_ V :=
  match m with
  | [] => [(k, v)]
  | (k', v') :: m' =>
      if String.eqb k' k then (k', v) :: m' else (k', v') :: map_set m' k v
  end.

End Go.

Import Go.

(** ** Package [config]: the two structs the scheduler reads *)

Module config.

(** [ScheduleEntry]: a date range mapped to an album; [Start] and [End]
    are [MM-DD] strings. *)
Record ScheduleEntry : Type := {
  Name : string;
  Album : string;
  Start : string;
  End_ : string  (* the field [End] *)
}.

Record Config : Type := {
  KioskURL : string;
  DefaultAlbum : string;
  Port : Z;
  LogLevel : string;
  PassthroughParams : list string;
  Schedule : list ScheduleEntry;
  MetricsUsername : string;
  MetricsPassword : string
}.

(** [dateRegex]: [^(0[1-9]|1[0-2])-(0[1-9]|[12]\d|3[01])$]. *)
Definition dateRegex : regex :=
  Cat (Alt (Cat (Lit "0") (Class [("1", "9")%char]))
           (Cat (Lit "1") (Class [("0", "2")%char])))
      (Cat (Lit "-")
           (Alt (Cat (Lit "0") (Class [("1", "9")%char]))
                (Alt (Cat (Class [("1", "1")%char; ("2", "2")%char])
                          (Class [("0", "9")%char]))
                     (Cat (Lit "3") (Class [("0", "0")%char; ("1", "1")%char]))))).

(** [paramRegex]: [^[a-zA-Z][a-zA-Z0-9_-]*$]. *)
Definition paramRegex : regex :=
  Cat (Class [("a", "z")%char; ("A", "Z")%char])
      (StarClass [("a", "z")%char; ("A", "Z")%char; ("0", "9")%char;
                  ("_", "_")%char; ("-", "-")%char]).

(** The table [maxDays] of [validateDate], indexed by [month - 1]. *)
Definition maxDays : list Z :=
  [31; 29; 31; 30; 31; 30; 31; 31; 30; 31; 30; 31].

(** [validateDate] checks if the MM-DD string represents a valid date;
    [None] is the panic of [maxDays[month-1]] out of range. *)
Definition validateDate (date : string) : option (result unit) :=
  let parts := Split date "-" in
  match parts with
  | [part0; part1] =>
      match Atoi part0 with
      | Some month =>
          if (month <? 1) || (month >? 12)
          then Some (Err (Errorf "invalid month: %s" [OString part0]))
          else
            match Atoi part1 with
            | Some day =>
                if (day <? 1) || (day >? 31)
                then Some (Err (Errorf "invalid day: %s" [OString part1]))
                else
                  max ← index maxDays (month - 1);
                  if day >? max
                  then Some (Err (Errorf "day %d is invalid for month %d"
                                    [OString (Itoa day);
                                     OString (Itoa month)]))
                  else Some no_error
            | None => Some (Err (Errorf "invalid day: %s" [OString part1]))
            end
      | None => Some (Err (Errorf "invalid month: %s" [OString part0]))
      end
  | _ => Some (Err (Errorf "invalid date format" []))
  end.

Section Validate.
(** [TrimSpace] is [strings.TrimSpace], and [url_Parse] is [url.Parse]
    reduced to the [Scheme] and the [Host] of the URL it returns; both
    are parameters of the validation. *)
Variable TrimSpace : string -> string.
Variable url_Parse : string -> result (string * string).

(** [ScheduleEntry.Validate] checks if the schedule entry is valid. *)
Definition ScheduleEntry_Validate (s : ScheduleEntry)
  : option (result unit) :=
  if String.eqb (TrimSpace (Name s)) ""
  then Some (Err (Errorf "schedule entry name is required" []))
  else if String.eqb (TrimSpace (Album s)) ""
  then Some (Err (Errorf "schedule entry album is required" []))
  else if negb (MatchString dateRegex (Start s))
  then Some (Err (Errorf "invalid start date format %q, expected MM-DD"
                    [OString (Start s)]))
  else if negb (MatchString dateRegex (End_ s))
  then Some (Err (Errorf "invalid end date format %q, expected MM-DD"
                    [OString (End_ s)]))
  else
    r ← validateDate (Start s);
    match r with
    | Err err => Some (Err (Errorf "invalid start date: %w" [OError err]))
    | Ok _ =>
        r' ← validateDate (End_ s);
        match r' with
        | Err err => Some (Err (Errorf "invalid end date: %w" [OError err]))
        | Ok _ => Some no_error
        end
    end.

(** The loop of [Config.Validate] over [c.Schedule], from index [i]. *)
Fixpoint Validate_loop (i : Z) (entries : list ScheduleEntry)
  : option (result unit) :=
  match entries with
  | [] => Some no_error
  | entry :: entries' =>
      r ← ScheduleEntry_Validate entry;
      match r with
      | Err err =>
          Some (Err (Errorf "schedule entry %d (%s): %w"
                       [OString (Itoa i); OString (Name entry); OError err]))
      | Ok _ => Validate_loop (i + 1) entries'
      end
  end.

(** [Config.Validate] checks if the configuration is valid. *)
Definition Config_Validate (c : Config) : option (result unit) :=
  if String.eqb (TrimSpace (KioskURL c)) ""
  then Some (Err (Errorf "kiosk_url is required" []))
  else
    match url_Parse (KioskURL c) with
    | Err err => Some (Err (Errorf "invalid kiosk_url: %w" [OError err]))
    | Ok (Scheme, Host) =>
        if negb (String.eqb Scheme "http") && negb (String.eqb Scheme "https")
        then Some (Err (Errorf
               "kiosk_url must use http or https scheme, got %q"
               [OString Scheme]))
        else if String.eqb Host ""
        then Some (Err (Errorf "kiosk_url must include a host" []))
        else if String.eqb (TrimSpace (DefaultAlbum c)) ""
        then Some (Err (Errorf "default_album is required" []))
        else if (Port c <? 1) || (Port c >? 65535)
        then Some (Err (Errorf "port must be between 1 and 65535" []))
        else Validate_loop 0 (Schedule c)
    end.

(** [SanitizeParam] validates and sanitizes a parameter name. *)
Definition SanitizeParam (param : string) : string * bool :=
  let param := TrimSpace param in
  if String.eqb param "" then ("", false)
  else if negb (MatchString paramRegex param) then ("", false)
  else (param, true).

End Validate.

End config.

(** ** Package [time]: the two accessors of [time.Time] that are used *)

Module time.

(** A [time.Time], reduced to what [t.Month()] and [t.Day()] return. *)
Record Time : Type := { Month : Z; Day : Z }.

(** What every [time.Time] satisfies: a month of the year and a day of
    the month. *)
Definition valid (t : Time) : Prop :=
  1 <= Month t <= 12 /\ 1 <= Day t <= 31.

End time.

(** ** Package [scheduler] *)

Module scheduler.
Import config.

(** [dateRange]: a parsed schedule entry with month/day values. *)
Record dateRange : Type := {
  name : string;
  album : string;
  startMonth : Z;
  startDay : Z;
  endMonth : Z;
  endDay : Z;
  wrapsYear : bool
}.

Record Scheduler : Type := {
  defaultAlbum : string;
  ranges : list dateRange
}.

(** [ParseMonthDay] parses a MM-DD string into month and day. *)
Definition ParseMonthDay (s : string) : result (Z * Z) :=
  let parts := Split s "-" in
  match parts with
  | [part0; part1] =>
      match Atoi part0 with
      | Some month =>
          if (month <? 1) || (month >? 12)
          then Err (Errorf "invalid month: %s" [OString part0])
          else
            match Atoi part1 with
            | Some day =>
                if (day <? 1) || (day >? 31)
                then Err (Errorf "invalid day: %s" [OString part1])
                else Ok (month, day)
            | None => Err (Errorf "invalid day: %s" [OString part1])
            end
      | None => Err (Errorf "invalid month: %s" [OString part0])
      end
  | _ => Err (Errorf "invalid format: expected MM-DD, got %q" [OString s])
  end.

(** The month-length table of [monthDayToDOY], indexed by month, with a
    zero in front. *)
Definition daysInMonth : list Z :=
  [0; 31; 29; 31; 30; 31; 30; 31; 31; 30; 31; 30; 31].

(** The loop [for m := 1; m < month; m++ { doy += daysInMonth[m] }],
    [iters] iterations from the state [(m, doy)]. *)
Fixpoint monthDayToDOY_loop (iters : nat) (m doy : Z) : option Z :=
  match iters with
  | O => Some doy
  | S iters' =>
      d ← index daysInMonth m;
      monthDayToDOY_loop iters' (m + 1) (int_add doy d)
  end.

(** [monthDayToDOY] converts a month/day to a day-of-year number; the
    loop runs for [m = 1 .. month - 1], that is [month - 1] times when
    [month > 1] and not at all otherwise. *)
Definition monthDayToDOY (month day : Z) : option Z :=
  doy ← monthDayToDOY_loop (Z.to_nat (month - 1)) 1 0;
  Some (int_add doy day).

(** [isYearWrap]: the range crosses the year boundary. *)
Definition isYearWrap (startMonth startDay endMonth endDay : Z)
  : option bool :=
  startDOY ← monthDayToDOY startMonth startDay;
  endDOY ← monthDayToDOY endMonth endDay;
  Some (endDOY <? startDOY).

(** The body of the loop of [New] over [cfg.Schedule]; [rs] is
    [s.ranges] so far. *)
Fixpoint New_loop (entries : list ScheduleEntry) (rs : list dateRange)
  : option (result (list dateRange)) :=
  match entries with
  | [] => Some (Ok rs)
  | entry :: entries' =>
      match ParseMonthDay (Start entry) with
      | Err err =>
          Some (Err (Errorf "invalid start date for %q: %w"
                       [OString (Name entry); OError err]))
      | Ok (startMonth, startDay) =>
          match ParseMonthDay (End_ entry) with
          | Err err =>
              Some (Err (Errorf "invalid end date for %q: %w"
                           [OString (Name entry); OError err]))
          | Ok (endMonth, endDay) =>
              w ← isYearWrap startMonth startDay endMonth endDay;
              let dr := {| name := Name entry;
                           album := Album entry;
                           startMonth := startMonth;
                           startDay := startDay;
                           endMonth := endMonth;
                           endDay := endDay;
                           wrapsYear := w |} in
              New_loop entries' (rs ++ [dr])
          end
      end
  end.

(** [New] creates a Scheduler from the configuration. *)
Definition New (cfg : Config) : option (result Scheduler) :=
  r ← New_loop (Schedule cfg) [];
  Some (match r with
        | Ok rs => Ok {| defaultAlbum := DefaultAlbum cfg; ranges := rs |}
        | Err err => Err err
        end).

(** [dateInRange] checks if a day-of-year falls within the range. *)
Definition dateInRange (s : Scheduler) (currentDOY : Z) (r : dateRange)
  : option bool :=
  startDOY ← monthDayToDOY (startMonth r) (startDay r);
  endDOY ← monthDayToDOY (endMonth r) (endDay r);
  if wrapsYear r
  then Some ((currentDOY >=? startDOY) || (currentDOY <=? endDOY))
  else Some ((currentDOY >=? startDOY) && (currentDOY <=? endDOY)).

(** The loop [for _, r := range s.ranges] of the two lookups: the
    projection [f] of the first range the date is in, [dflt] when the
    loop ends. *)
Fixpoint lookup_loop (s : Scheduler) (currentDOY : Z)
    (f : dateRange → string) (dflt : string) (rs : list dateRange)
  : option string :=
  match rs with
  | [] => Some dflt
  | r :: rs' =>
      b ← dateInRange s currentDOY r;
      if b : bool then Some (f r)
      else lookup_loop s currentDOY f dflt rs'
  end.

(** [GetAlbumForDate]: the album of the first matching schedule, the
    default album if none matches. *)
Definition GetAlbumForDate (s : Scheduler) (t : time.Time)
  : option string :=
  let month := time.Month t in
  let day := time.Day t in
  currentDOY ← monthDayToDOY month day;
  lookup_loop s currentDOY album (defaultAlbum s) (ranges s).

(** [GetScheduleNameForDate]: the name of the first matching schedule,
    ["default"] if none matches. *)
Definition GetScheduleNameForDate (s : Scheduler) (t : time.Time)
  : option string :=
  let month := time.Month t in
  let day := time.Day t in
  currentDOY ← monthDayToDOY month day;
  lookup_loop s currentDOY name "default" (ranges s).

(** [GetDefaultAlbum] and [GetScheduleCount]. *)
Definition GetDefaultAlbum (s : Scheduler) : string := defaultAlbum s.
Definition GetScheduleCount (s : Scheduler) : Z :=
  Z.of_nat (length (ranges s)).

End scheduler.

(** ** Package [server]: what [New] keeps of the configuration *)

Module server.
Import config scheduler.

(** [Server], without its router and its logger. *)
Record Server : Type := {
  scheduler_ : Scheduler;  (* the field [scheduler] *)
  kioskURL : string;
  passthroughParams : map_ bool;
  port : Z
}.

Section New.
Variable TrimSpace : string -> string.

(** The loop of [New] over [cfg.PassthroughParams]. *)
Fixpoint New_params_loop (params : list string) (passthroughMap : map_ bool)
  : map_ bool :=
  match params with
  | [] => passthroughMap
  | p :: params' =>
      let '(sanitized, valid) := SanitizeParam TrimSpace p in
      New_params_loop params'
        (if valid then map_set passthroughMap sanitized true
         else passthroughMap)
  end.

(** [New] creates a new Server instance; its error is always [nil]. *)
Definition New (cfg : Config) (sched : Scheduler) : result Server :=
  let passthroughMap := New_params_loop (PassthroughParams cfg) [] in
  Ok {| scheduler_ := sched;
        kioskURL := KioskURL cfg;
        passthroughParams := passthroughMap;
        port := Port cfg |}.

End New.

End server.


Import config scheduler.

(** ** The vocabulary of the specification *)

(** A MonthDay of the specification: a validated pair, month in [1,12]
    and day in [1,31], with no check of the day against the month. *)
Definition valid_pair (month day : Z) : Prop :=
  1 <= month <= 12 /\ 1 <= day <= 31.

(** Calendar order on (month, day) pairs. *)
Definition earlier (m1 d1 m2 d2 : Z) : Prop :=
  m1 < m2 \/ (m1 = m2 /\ d1 < d2).

(** The specification's fixed table of month lengths, February with 29
    days, one entry per month. *)
Definition monthLengths : list Z :=
  [31; 29; 31; 30; 31; 30; 31; 31; 30; 31; 30; 31].

Definition sum_Z (l : list Z) : Z := foldr Z.add 0 l.

(** The specification's [ToOrdinal]: the sum of the table over the months
    [1 .. month - 1], plus the day. *)
Definition ToOrdinal (month day : Z) : Z :=
  sum_Z (take (Z.to_nat (month - 1)) monthLengths) + day.

(** The specification's data model of a range: the two ordinals and the
    wrap flag are derived once, when the range is compiled, and the
    membership predicate reads them from the compiled range. *)
Module Spec.

Record CompiledRange : Type := {
  name : string;
  value : string;
  startDOY : Z;
  endDOY : Z;
  wrapsYear : bool
}.

(** [IsWrap]: the end ordinal is smaller than the start ordinal. *)
Definition IsWrap (startMonth startDay endMonth endDay : Z) : bool :=
  ToOrdinal endMonth endDay <? ToOrdinal startMonth startDay.

(** Compiling one entry of the configuration, at construction time. *)
Definition compile (entry : ScheduleEntry) : option CompiledRange :=
  match ParseMonthDay (Start entry), ParseMonthDay (End_ entry) with
  | Ok (startMonth, startDay), Ok (endMonth, endDay) =>
      Some {| name := Name entry;
              value := Album entry;
              startDOY := ToOrdinal startMonth startDay;
              endDOY := ToOrdinal endMonth endDay;
              wrapsYear := IsWrap startMonth startDay endMonth endDay |}
  | _, _ => None
  end.

(** The membership predicate over the cached ordinals, both boundaries
    inclusive. *)
Definition matches (currentDOY : Z) (r : CompiledRange) : bool :=
  if wrapsYear r
  then (currentDOY >=? startDOY r) || (currentDOY <=? endDOY r)
  else (currentDOY >=? startDOY r) && (currentDOY <=? endDOY r).

End Spec.

(** How a range of a scheduler relates to the entry it was compiled
    from: what one iteration of the loop of [New] stores. *)
Definition compiled_from (entry : ScheduleEntry) (r : dateRange) : Prop :=
  name r = Name entry /\
  album r = Album entry /\
  ParseMonthDay (Start entry) = Ok (startMonth r, startDay r) /\
  ParseMonthDay (End_ entry) = Ok (endMonth r, endDay r) /\
  isYearWrap (startMonth r) (startDay r) (endMonth r) (endDay r)
  = Some (wrapsYear r).

(** Both boundaries of an entry parse. *)
Definition parses (entry : ScheduleEntry) : Prop :=
  exists startMonth startDay endMonth endDay,
    ParseMonthDay (Start entry) = Ok (startMonth, startDay) /\
    ParseMonthDay (End_ entry) = Ok (endMonth, endDay).

(** The error [New] returns for an entry whose start boundary does not
    parse, and for one whose start parses and whose end does not. *)
Definition start_error (entry : ScheduleEntry) (e : error) : Prop :=
  exists err,
    ParseMonthDay (Start entry) = Err err /\
    e = Errorf "invalid start date for %q: %w"
          [OString (Name entry); OError err].

Definition end_error (entry : ScheduleEntry) (e : error) : Prop :=
  exists err,
    (exists md, ParseMonthDay (Start entry) = Ok md) /\
    ParseMonthDay (End_ entry) = Err err /\
    e = Errorf "invalid end date for %q: %w"
          [OString (Name entry); OError err].

(** The date [t] is in the range [r]: what the loops of the lookups test
    on each range. *)
Definition matches_date (s : Scheduler) (t : time.Time) (r : dateRange)
  : Prop :=
  exists currentDOY,
    monthDayToDOY (time.Month t) (time.Day t) = Some currentDOY /\
    dateInRange s currentDOY r = Some true.

(** A configuration with the given default album and schedule; the other
    fields are not read by the scheduler. *)
Definition mkConfig (dflt : string) (entries : list ScheduleEntry) : Config :=
  {| KioskURL := "https://kiosk.example.com"; DefaultAlbum := dflt;
     Port := 8080; LogLevel := "info"; PassthroughParams := [];
     Schedule := entries; MetricsUsername := ""; MetricsPassword := "" |}.

Definition mkEntry (n a s e : string) : ScheduleEntry :=
  {| Name := n; Album := a; Start := s; End_ := e |}.

Definition date (month day : Z) : time.Time :=
  {| time.Month := month; time.Day := day |}.

(** The configuration of the test [FirstMatchWins]. *)
Definition overlap_cfg : Config :=
  mkConfig "default-album"
    [mkEntry "special" "special-album" "12-20" "12-26";
     mkEntry "christmas" "christmas-album" "11-15" "01-01"].

(** Its two ranges as [New] compiles them, and the scheduler it builds. *)
Definition special_range : dateRange :=
  {| name := "special"; album := "special-album";
     startMonth := 12; startDay := 20;
     endMonth := 12; endDay := 26; wrapsYear := false |}.

Definition christmas_range : dateRange :=
  {| name := "christmas"; album := "christmas-album";
     startMonth := 11; startDay := 15;
     endMonth := 1; endDay := 1; wrapsYear := true |}.

Definition overlap_scheduler : Scheduler :=
  {| defaultAlbum := "default-album";
     ranges := [special_range; christmas_range] |}.

(** A configuration with one single-day range, and what [New] builds
    from it. *)
Definition single_day_cfg : Config :=
  mkConfig "default-album" [mkEntry "fourth" "fourth-album" "07-04" "07-04"].

Definition fourth_range : dateRange :=
  {| name := "fourth"; album := "fourth-album";
     startMonth := 7; startDay := 4;
     endMonth := 7; endDay := 4; wrapsYear := false |}.

Definition single_day_scheduler : Scheduler :=
  {| defaultAlbum := "default-album"; ranges := [fourth_range] |}.

(** The day exists in the month, by the table [maxDays] of the
    validation. *)
Definition within_month (month day : Z) : Prop :=
  exists max, index maxDays (month - 1) = Some max /\ day <= max.

(** The first range of the list that the day of the year is in, as the
    loops of the two lookups find it. *)
Definition first_in (s : Scheduler) (currentDOY : Z) (rs : list dateRange)
  : option dateRange :=
  List.find (fun r => match dateInRange s currentDOY r with
                      | Some true => true
                      | _ => false
                      end) rs.

(** The characters of a parameter name that [paramRegex] lets through. *)
Definition letter (c : ascii) : Prop :=
  (97 <= N_of_ascii c <= 122)%N \/ (65 <= N_of_ascii c <= 90)%N.

Definition safe_char (c : ascii) : Prop :=
  letter c \/ (48 <= N_of_ascii c <= 57)%N \/
  N_of_ascii c = 95%N \/ N_of_ascii c = 45%N.

(** All the characters, and those of a class. *)
Definition all_chars : list ascii := List.map ascii_of_nat (List.seq 0 256).

Definition chars_of_class (ranges : list (ascii * ascii)) : list ascii :=
  List.filter (fun c => in_class c ranges) all_chars.

(** The configuration [cfg] with another schedule. *)
Definition with_schedule (cfg : Config) (entries : list ScheduleEntry)
  : Config :=
  {| KioskURL := KioskURL cfg; DefaultAlbum := DefaultAlbum cfg;
     Port := Port cfg; LogLevel := LogLevel cfg;
     PassthroughParams := PassthroughParams cfg; Schedule := entries;
     MetricsUsername := MetricsUsername cfg;
     MetricsPassword := MetricsPassword cfg |}.

(** ** The Go runtime: basic facts *)

Lemma wrap_small (z : Z) : int_min <= z <= int_max -> wrap z = z.
Proof.
  unfold wrap, int_min, int_max. intros Hz.
  rewrite Z.mod_small; lia.
Qed.

Lemma int_add_small (a b : Z) :
  int_min <= a + b <= int_max -> int_add a b = a + b.
Proof. apply wrap_small. Qed.

(** ** Day-of-year ordinals *)

Ltac month_cases m H :=
  assert (m = 1 \/ m = 2 \/ m = 3 \/ m = 4 \/ m = 5 \/ m = 6 \/ m = 7 \/
          m = 8 \/ m = 9 \/ m = 10 \/ m = 11 \/ m = 12) as H by lia;
  repeat (destruct H as [H | H]); subst m.

(** The loop of [monthDayToDOY] ends without a panic for a month of the
    year, with the sum of the lengths of the months before it. *)
Lemma monthDayToDOY_loop_month (month : Z) :
  1 <= month <= 12 ->
  monthDayToDOY_loop (Z.to_nat (month - 1)) 1 0
  = Some (sum_Z (take (Z.to_nat (month - 1)) monthLengths)).
Proof. intros Hm. month_cases month H; reflexivity. Qed.

Lemma months_before_bounds (month : Z) :
  1 <= month <= 12 ->
  0 <= sum_Z (take (Z.to_nat (month - 1)) monthLengths) <= 335.
Proof. intros Hm. month_cases month H; vm_compute; split; discriminate. Qed.

(** On a validated pair [monthDayToDOY] returns, and returns the
    specification's ordinal. *)
Lemma monthDayToDOY_ToOrdinal (month day : Z) :
  valid_pair month day ->
  monthDayToDOY month day = Some (ToOrdinal month day).
Proof.
  intros [Hm Hd]. unfold monthDayToDOY, ToOrdinal.
  rewrite (monthDayToDOY_loop_month month Hm). simpl.
  pose proof (months_before_bounds month Hm) as Hb.
  rewrite int_add_small; [reflexivity |].
  unfold int_min, int_max. lia.
Qed.

Lemma ToOrdinal_bounds (month day : Z) :
  valid_pair month day -> 1 <= ToOrdinal month day <= 366.
Proof.
  intros [Hm Hd]. unfold ToOrdinal.
  month_cases month H; vm_compute sum_Z; lia.
Qed.

(** The ordinal of the first day of a month is one more than the ordinal
    of the last day the table gives the month before. *)
Lemma ToOrdinal_next_month (month len : Z) :
  1 <= month <= 11 ->
  index daysInMonth month = Some len ->
  ToOrdinal (month + 1) 1 = ToOrdinal month len + 1.
Proof.
  intros Hm Hlen. unfold ToOrdinal.
  month_cases month H; vm_compute in Hlen; injection Hlen as <-; reflexivity.
Qed.

Lemma ToOrdinal_month_mono (m1 m2 : Z) :
  1 <= m1 -> m1 <= m2 <= 12 ->
  ToOrdinal m1 0 <= ToOrdinal m2 0.
Proof.
  intros H1 H2. unfold ToOrdinal.
  month_cases m1 Ha; month_cases m2 Hb; vm_compute; try discriminate; lia.
Qed.

Lemma ToOrdinal_split (month day : Z) :
  ToOrdinal month day = ToOrdinal month 0 + day.
Proof. unfold ToOrdinal. lia. Qed.

(** C3: on a validated pair (month in [1,12], day in [1,31]),
    [monthDayToDOY] returns the sum of the fixed month-length table
    [31,29,31,30,31,30,31,31,30,31,30,31] over the months before [month],
    plus [day] (the table of the code is this table behind a leading zero,
    February with 29 days), and the result lies in [1, 366]. *)
Theorem monthDayToDOY_sum_of_table (month day : Z) :
  valid_pair month day ->
  daysInMonth = 0 :: monthLengths /\
  monthDayToDOY month day
  = Some (sum_Z (take (Z.to_nat (month - 1)) monthLengths) + day) /\
  1 <= sum_Z (take (Z.to_nat (month - 1)) monthLengths) + day <= 366.
Proof.
  intros Hv. split; [reflexivity |]. split.
  - apply (monthDayToDOY_ToOrdinal month day Hv).
  - apply (ToOrdinal_bounds month day Hv).
Qed.

Lemma monthDayToDOY_sum_of_table_witness :
  valid_pair 12 31 /\
  (daysInMonth = 0 :: monthLengths /\
   monthDayToDOY 12 31
   = Some (sum_Z (take (Z.to_nat (12 - 1)) monthLengths) + 31) /\
   1 <= sum_Z (take (Z.to_nat (12 - 1)) monthLengths) + 31 <= 366).
Proof.
  assert (Hv : valid_pair 12 31) by (unfold valid_pair; lia).
  split; [exact Hv | apply (monthDayToDOY_sum_of_table 12 31 Hv)].
Defined.

(** C4 (as amended): for two validated pairs, [monthDayToDOY] returns on
    both; if the first is strictly earlier in calendar order and either
    the months are equal or the first day is no greater than the length
    the table gives its month, the first ordinal is strictly smaller; and
    equal pairs have equal ordinals. *)
Theorem monthDayToDOY_strictly_monotone (m1 d1 m2 d2 : Z) :
  valid_pair m1 d1 -> valid_pair m2 d2 ->
  exists o1 o2,
    monthDayToDOY m1 d1 = Some o1 /\
    monthDayToDOY m2 d2 = Some o2 /\
    (earlier m1 d1 m2 d2 ->
     (m1 = m2 \/ exists len, index daysInMonth m1 = Some len /\ d1 <= len) ->
     o1 < o2) /\
    (m1 = m2 -> d1 = d2 -> o1 = o2).
Proof.
  intros Hv1 Hv2.
  exists (ToOrdinal m1 d1), (ToOrdinal m2 d2).
  split; [apply (monthDayToDOY_ToOrdinal _ _ Hv1) |].
  split; [apply (monthDayToDOY_ToOrdinal _ _ Hv2) |].
  split.
  - intros Hearlier Hday.
    rewrite (ToOrdinal_split m1 d1), (ToOrdinal_split m2 d2).
    destruct Hearlier as [Hlt | [-> Hlt]]; [| lia].
    destruct Hday as [-> | (len & Hlen & Hle)]; [lia |].
    destruct Hv1 as [Hm1 Hd1], Hv2 as [Hm2 Hd2].
    assert (Hnext := ToOrdinal_next_month m1 len ltac:(lia) Hlen).
    assert (Hmono := ToOrdinal_month_mono (m1 + 1) m2 ltac:(lia) ltac:(lia)).
    rewrite (ToOrdinal_split (m1 + 1) 1), (ToOrdinal_split m1 len) in Hnext.
    lia.
  - intros -> ->. reflexivity.
Qed.

Lemma monthDayToDOY_strictly_monotone_witness :
  valid_pair 2 29 /\ valid_pair 3 1 /\
  exists o1 o2,
    monthDayToDOY 2 29 = Some o1 /\
    monthDayToDOY 3 1 = Some o2 /\
    (earlier 2 29 3 1 ->
     (2 = 3 \/ exists len, index daysInMonth 2 = Some len /\ 29 <= len) ->
     o1 < o2) /\
    (2 = 3 -> 29 = 1 -> o1 = o2).
Proof.
  assert (Hv1 : valid_pair 2 29) by (unfold valid_pair; lia).
  assert (Hv2 : valid_pair 3 1) by (unfold valid_pair; lia).
  split; [exact Hv1 |]. split; [exact Hv2 |].
  apply (monthDayToDOY_strictly_monotone 2 29 3 1 Hv1 Hv2).
Defined.

(** C4 as stated fails: "02-30" and "03-01" are both validated pairs, the
    first strictly earlier in calendar order, and both have ordinal 61. *)
Lemma monthDayToDOY_not_monotone_on_valid_pairs :
  ~ (forall m1 d1 m2 d2 o1 o2,
       valid_pair m1 d1 -> valid_pair m2 d2 -> earlier m1 d1 m2 d2 ->
       monthDayToDOY m1 d1 = Some o1 -> monthDayToDOY m2 d2 = Some o2 ->
       o1 < o2).
Proof.
  intros H.
  assert (Hv1 : valid_pair 2 30) by (unfold valid_pair; lia).
  assert (Hv2 : valid_pair 3 1) by (unfold valid_pair; lia).
  assert (He : earlier 2 30 3 1) by (left; lia).
  specialize (H 2 30 3 1 61 61 Hv1 Hv2 He eq_refl eq_refl). lia.
Qed.

(** ** Parsing a boundary *)

Lemma bounds_test (z lo hi : Z) :
  (z <? lo) || (z >? hi) = false <-> lo <= z <= hi.
Proof.
  rewrite orb_false_iff, Z.ltb_ge, Z.gtb_ltb, Z.ltb_ge. tauto.
Qed.

(** [ParseMonthDay] succeeds exactly on two segments that [Atoi] reads as
    a month of [1,12] and a day of [1,31]. *)
Lemma ParseMonthDay_Ok_iff (s : string) (month day : Z) :
  ParseMonthDay s = Ok (month, day) <->
  exists part0 part1,
    Split s "-" = [part0; part1] /\
    Atoi part0 = Some month /\ 1 <= month <= 12 /\
    Atoi part1 = Some day /\ 1 <= day <= 31.
Proof.
  unfold ParseMonthDay. split.
  - destruct (Split s "-") as [| p0 [| p1 [| p2 ps]]]; try discriminate.
    destruct (Atoi p0) as [m |] eqn:E0; [| discriminate].
    destruct ((m <? 1) || (m >? 12)) eqn:Bm; [discriminate |].
    destruct (Atoi p1) as [d |] eqn:E1; [| discriminate].
    destruct ((d <? 1) || (d >? 31)) eqn:Bd; [discriminate |].
    intros [= <- <-]. exists p0, p1.
    apply bounds_test in Bm, Bd. auto.
  - intros (p0 & p1 & -> & -> & Hm & -> & Hd).
    apply bounds_test in Hm, Hd. rewrite Hm, Hd. reflexivity.
Qed.

Lemma ParseMonthDay_valid (s : string) (month day : Z) :
  ParseMonthDay s = Ok (month, day) -> valid_pair month day.
Proof.
  intros H. apply ParseMonthDay_Ok_iff in H.
  destruct H as (p0 & p1 & _ & _ & Hm & _ & Hd). split; assumption.
Qed.

Lemma ParseMonthDay_format_error (s : string) :
  length (Split s "-") <> 2%nat ->
  ParseMonthDay s
  = Err (Errorf "invalid format: expected MM-DD, got %q" [OString s]).
Proof.
  unfold ParseMonthDay.
  destruct (Split s "-") as [| p0 [| p1 [| p2 ps]]]; simpl; try reflexivity.
  intros H. contradiction H. reflexivity.
Qed.

Lemma ParseMonthDay_month_error (s part0 part1 : string) :
  Split s "-" = [part0; part1] ->
  (forall month, Atoi part0 = Some month -> ~ 1 <= month <= 12) ->
  ParseMonthDay s = Err (Errorf "invalid month: %s" [OString part0]).
Proof.
  unfold ParseMonthDay. intros -> Hbad.
  destruct (Atoi part0) as [m |]; [| reflexivity].
  destruct ((m <? 1) || (m >? 12)) eqn:Bm; [reflexivity |].
  apply bounds_test in Bm. destruct (Hbad m eq_refl Bm).
Qed.

Lemma ParseMonthDay_day_error (s part0 part1 : string) (month : Z) :
  Split s "-" = [part0; part1] ->
  Atoi part0 = Some month -> 1 <= month <= 12 ->
  (forall day, Atoi part1 = Some day -> ~ 1 <= day <= 31) ->
  ParseMonthDay s = Err (Errorf "invalid day: %s" [OString part1]).
Proof.
  unfold ParseMonthDay. intros -> -> Hm Hbad.
  apply bounds_test in Hm. rewrite Hm.
  destruct (Atoi part1) as [d |]; [| reflexivity].
  destruct ((d <? 1) || (d >? 31)) eqn:Bd; [reflexivity |].
  apply bounds_test in Bd. destruct (Hbad d eq_refl Bd).
Qed.

Lemma append_empty_r (s : string) : String.append s EmptyString = s.
Proof. induction s as [| c s IH]; simpl; [| rewrite IH]; reflexivity. Qed.

(** The messages of the three errors of [ParseMonthDay]. *)
Lemma Error_format (Quote : string -> string) (s : string) :
  Error Quote (Errorf "invalid format: expected MM-DD, got %q" [OString s])
  = String.append "invalid format: expected MM-DD, got " (Quote s).
Proof. simpl. rewrite append_empty_r. reflexivity. Qed.

Lemma Error_month (Quote : string -> string) (part : string) :
  Error Quote (Errorf "invalid month: %s" [OString part])
  = String.append "invalid month: " part.
Proof. simpl. rewrite append_empty_r. reflexivity. Qed.

Lemma Error_day (Quote : string -> string) (part : string) :
  Error Quote (Errorf "invalid day: %s" [OString part])
  = String.append "invalid day: " part.
Proof. simpl. rewrite append_empty_r. reflexivity. Qed.

(** C7: [ParseMonthDay] succeeds exactly when the input splits on "-"
    into two segments whose numeric values are a month in [1,12] and a
    day in [1,31], with no check of the day against the month ("02-30" is
    accepted); it fails on a wrong segment count, on a segment that is not
    a number and on a value out of bounds, and the message of the failure
    names the check that failed; "11-15" parses to (11, 15) and
    "2024-11-15", "13-01" and "01-32" fail. *)
Theorem ParseMonthDay_succeeds_exactly (Quote : string -> string) (s : string) :
  (forall month day,
     ParseMonthDay s = Ok (month, day) <->
     exists part0 part1,
       Split s "-" = [part0; part1] /\
       Atoi part0 = Some month /\ 1 <= month <= 12 /\
       Atoi part1 = Some day /\ 1 <= day <= 31) /\
  (length (Split s "-") <> 2%nat ->
   exists e, ParseMonthDay s = Err e /\
     Error Quote e
     = String.append "invalid format: expected MM-DD, got " (Quote s)) /\
  (forall part0 part1,
     Split s "-" = [part0; part1] ->
     (forall month, Atoi part0 = Some month -> ~ 1 <= month <= 12) ->
     exists e, ParseMonthDay s = Err e /\
       Error Quote e = String.append "invalid month: " part0) /\
  (forall part0 part1 month,
     Split s "-" = [part0; part1] ->
     Atoi part0 = Some month -> 1 <= month <= 12 ->
     (forall day, Atoi part1 = Some day -> ~ 1 <= day <= 31) ->
     exists e, ParseMonthDay s = Err e /\
       Error Quote e = String.append "invalid day: " part1) /\
  ParseMonthDay "11-15" = Ok (11, 15) /\
  ParseMonthDay "02-30" = Ok (2, 30) /\
  ParseMonthDay "2024-11-15"
  = Err (Errorf "invalid format: expected MM-DD, got %q"
           [OString "2024-11-15"]) /\
  ParseMonthDay "13-01" = Err (Errorf "invalid month: %s" [OString "13"]) /\
  ParseMonthDay "01-32" = Err (Errorf "invalid day: %s" [OString "32"]).
Proof.
  split; [intros month day; apply ParseMonthDay_Ok_iff |].
  split.
  { intros Hlen. eexists. split.
    - apply (ParseMonthDay_format_error s Hlen).
    - apply Error_format. }
  split.
  { intros part0 part1 Hsplit Hbad. eexists. split.
    - apply (ParseMonthDay_month_error s part0 part1 Hsplit Hbad).
    - apply Error_month. }
  split.
  { intros part0 part1 month Hsplit Hatoi Hm Hbad. eexists. split.
    - apply (ParseMonthDay_day_error s part0 part1 month Hsplit Hatoi Hm Hbad).
    - apply Error_day. }
  repeat split; reflexivity.
Qed.

(** C10: [ParseMonthDay] does not enforce the two-digit MM-DD shape:
    "1-5" parses to (1, 5) and "+5-10" to (5, 10); whatever the shape of
    the two segments, the parse succeeds as soon as [Atoi] reads them as
    a month in [1,12] and a day in [1,31]. *)
Theorem ParseMonthDay_shape_not_enforced :
  ParseMonthDay "1-5" = Ok (1, 5) /\
  ParseMonthDay "+5-10" = Ok (5, 10) /\
  (forall s part0 part1 month day,
     Split s "-" = [part0; part1] ->
     Atoi part0 = Some month -> 1 <= month <= 12 ->
     Atoi part1 = Some day -> 1 <= day <= 31 ->
     ParseMonthDay s = Ok (month, day)).
Proof.
  split; [reflexivity |]. split; [reflexivity |].
  intros s part0 part1 month day Hsplit H0 Hm H1 Hd.
  apply ParseMonthDay_Ok_iff. exists part0, part1. auto.
Qed.

Lemma ParseMonthDay_shape_not_enforced_witness :
  Split "1-5" "-" = ["1"; "5"] /\
  Atoi "1" = Some 1 /\ 1 <= 1 <= 12 /\
  Atoi "5" = Some 5 /\ 1 <= 5 <= 31 /\
  ParseMonthDay "1-5" = Ok (1, 5).
Proof.
  assert (Hs : Split "1-5" "-" = ["1"; "5"]) by reflexivity.
  assert (H0 : Atoi "1" = Some 1) by reflexivity.
  assert (H1 : Atoi "5" = Some 5) by reflexivity.
  assert (Hm : 1 <= 1 <= 12) by lia.
  assert (Hd : 1 <= 5 <= 31) by lia.
  repeat (split; [assumption |]).
  apply (proj2 (proj2 ParseMonthDay_shape_not_enforced)
           "1-5" "1" "5" 1 5 Hs H0 Hm H1 Hd).
Defined.

Lemma ParseMonthDay_succeeds_exactly_witness :
  length (Split "2024-11-15" "-") <> 2%nat /\
  exists e, ParseMonthDay "2024-11-15" = Err e /\
    Error (fun s => s) e
    = String.append "invalid format: expected MM-DD, got " "2024-11-15".
Proof.
  assert (Hlen : length (Split "2024-11-15" "-") <> 2%nat)
    by (vm_compute; discriminate).
  split; [exact Hlen |].
  apply (proj1 (proj2 (ParseMonthDay_succeeds_exactly
                         (fun s => s) "2024-11-15")) Hlen).
Defined.

(** ** Construction *)

Lemma isYearWrap_valid (sm sd em ed : Z) :
  valid_pair sm sd -> valid_pair em ed ->
  isYearWrap sm sd em ed = Some (Spec.IsWrap sm sd em ed).
Proof.
  intros Hs He. unfold isYearWrap, Spec.IsWrap.
  rewrite (monthDayToDOY_ToOrdinal _ _ Hs), (monthDayToDOY_ToOrdinal _ _ He).
  reflexivity.
Qed.

(** What a range compiled from an entry holds. *)
Lemma compiled_from_valid (entry : ScheduleEntry) (r : dateRange) :
  compiled_from entry r ->
  valid_pair (startMonth r) (startDay r) /\
  valid_pair (endMonth r) (endDay r) /\
  wrapsYear r
  = Spec.IsWrap (startMonth r) (startDay r) (endMonth r) (endDay r).
Proof.
  intros (_ & _ & Hs & He & Hw).
  apply ParseMonthDay_valid in Hs, He.
  rewrite (isYearWrap_valid _ _ _ _ Hs He) in Hw.
  injection Hw as Hw. auto.
Qed.

(** A successful run of the loop of [New] appends, in order, one range
    per entry. *)
Lemma New_loop_Ok_inv (entries : list ScheduleEntry) :
  forall rs rs',
    New_loop entries rs = Some (Ok rs') ->
    exists new, rs' = rs ++ new /\ Forall2 compiled_from entries new.
Proof.
  induction entries as [| entry entries IH]; intros rs rs' H; simpl in H.
  - injection H as <-. exists []. rewrite app_nil_r. split; constructor.
  - destruct (ParseMonthDay (Start entry)) as [[sm sd] |] eqn:Es;
      [| discriminate].
    destruct (ParseMonthDay (End_ entry)) as [[em ed] |] eqn:Ee;
      [| discriminate].
    destruct (isYearWrap sm sd em ed) as [w |] eqn:Ew; [| discriminate].
    simpl in H. apply IH in H. destruct H as (new & -> & Hnew).
    eexists (_ :: new). rewrite <- app_assoc. split; [reflexivity |].
    constructor; [| exact Hnew].
    unfold compiled_from; simpl. auto.
Qed.

(** The loop of [New] succeeds when every entry parses. *)
Lemma New_loop_parses (entries : list ScheduleEntry) :
  Forall parses entries ->
  forall rs, exists new, New_loop entries rs = Some (Ok (rs ++ new)).
Proof.
  induction 1 as [| entry entries Hp _ IH]; intros rs; simpl.
  - exists []. rewrite app_nil_r. reflexivity.
  - destruct Hp as (sm & sd & em & ed & Hs & He). rewrite Hs, He.
    rewrite (isYearWrap_valid sm sd em ed
               (ParseMonthDay_valid _ _ _ Hs) (ParseMonthDay_valid _ _ _ He)).
    simpl. edestruct IH as (new & ->).
    eexists (_ :: new). rewrite <- app_assoc. reflexivity.
Qed.

(** The loop of [New] returns the error of the first entry that does not
    parse, as soon as there is one. *)
Lemma New_loop_fails (entries : list ScheduleEntry) :
  Exists (fun entry => ~ parses entry) entries ->
  forall rs, exists e pre entry post,
    New_loop entries rs = Some (Err e) /\
    entries = pre ++ entry :: post /\
    Forall parses pre /\
    (start_error entry e \/ end_error entry e).
Proof.
  induction entries as [| entry entries IH]; intros Hex rs.
  - inversion Hex.
  - simpl.
    destruct (ParseMonthDay (Start entry)) as [[sm sd] | err] eqn:Es.
    2:{ eexists _, [], entry, entries. split; [reflexivity |].
        split; [reflexivity |]. split; [constructor |].
        left. exists err. auto. }
    destruct (ParseMonthDay (End_ entry)) as [[em ed] | err] eqn:Ee.
    2:{ eexists _, [], entry, entries. split; [reflexivity |].
        split; [reflexivity |]. split; [constructor |].
        right. exists err. eauto. }
    rewrite (isYearWrap_valid sm sd em ed
               (ParseMonthDay_valid _ _ _ Es) (ParseMonthDay_valid _ _ _ Ee)).
    simpl.
    assert (Hp : parses entry) by (exists sm, sd, em, ed; auto).
    inversion Hex as [? ? Hbad | ? ? Htl]; subst; [destruct (Hbad Hp) |].
    destruct (IH Htl (rs ++
      [{| name := Name entry; album := Album entry;
          startMonth := sm; startDay := sd; endMonth := em; endDay := ed;
          wrapsYear := Spec.IsWrap sm sd em ed |}]))
      as (e & pre & entry' & post & HN & -> & Hpre & Herr).
    exists e, (entry :: pre), entry', post.
    split; [exact HN |]. split; [reflexivity |].
    split; [constructor; assumption | exact Herr].
Qed.

(** A scheduler that [New] returned: its default album and, in the order
    of the configuration, one compiled range per entry. *)
Lemma New_Ok_inv (cfg : Config) (s : Scheduler) :
  New cfg = Some (Ok s) ->
  defaultAlbum s = DefaultAlbum cfg /\
  Forall2 compiled_from (Schedule cfg) (ranges s).
Proof.
  unfold New. intros H.
  destruct (New_loop (Schedule cfg) []) as [[rs | e] |] eqn:EN;
    simpl in H; try discriminate.
  injection H as <-. simpl.
  apply New_loop_Ok_inv in EN. destruct EN as (new & -> & Hnew).
  auto.
Qed.

Lemma New_range_compiled (cfg : Config) (s : Scheduler) (r : dateRange) :
  New cfg = Some (Ok s) -> In r (ranges s) ->
  exists entry, In entry (Schedule cfg) /\ compiled_from entry r.
Proof.
  intros HN Hin. apply New_Ok_inv in HN. destruct HN as [_ HF].
  induction HF as [| entry r' es rs Hc _ IH]; [destruct Hin |].
  destruct Hin as [<- | Hin].
  - exists entry. split; [left; reflexivity | exact Hc].
  - destruct (IH Hin) as (entry' & Hin' & Hc').
    exists entry'. split; [right; exact Hin' | exact Hc'].
Qed.

(** The messages of the two errors of [New]. *)
Lemma Error_start (Quote : string -> string) (n : string) (err : error) :
  Error Quote (Errorf "invalid start date for %q: %w" [OString n; OError err])
  = String.append "invalid start date for "
      (String.append (Quote n) (String.append ": " (Error Quote err))).
Proof. simpl. rewrite append_empty_r. reflexivity. Qed.

Lemma Error_end (Quote : string -> string) (n : string) (err : error) :
  Error Quote (Errorf "invalid end date for %q: %w" [OString n; OError err])
  = String.append "invalid end date for "
      (String.append (Quote n) (String.append ": " (Error Quote err))).
Proof. simpl. rewrite append_empty_r. reflexivity. Qed.

(** C6: construction is all-or-nothing. If some entry has a boundary that
    does not parse, [New] returns an error and no scheduler; the error is
    that of the first such entry, and its message names the entry and
    says whether the start or the end boundary failed. If every boundary
    parses, [New] returns a scheduler whose ranges are the entries compiled
    one by one, in the order of the input. *)
Theorem New_all_or_nothing (Quote : string -> string) (cfg : Config) :
  (Exists (fun entry => ~ parses entry) (Schedule cfg) ->
   exists e pre entry post err,
     New cfg = Some (Err e) /\
     Schedule cfg = pre ++ entry :: post /\
     Forall parses pre /\
     ((ParseMonthDay (Start entry) = Err err /\
       e = Errorf "invalid start date for %q: %w"
             [OString (Name entry); OError err] /\
       Error Quote e
       = String.append "invalid start date for "
           (String.append (Quote (Name entry))
              (String.append ": " (Error Quote err))))
      \/
      ((exists md, ParseMonthDay (Start entry) = Ok md) /\
       ParseMonthDay (End_ entry) = Err err /\
       e = Errorf "invalid end date for %q: %w"
             [OString (Name entry); OError err] /\
       Error Quote e
       = String.append "invalid end date for "
           (String.append (Quote (Name entry))
              (String.append ": " (Error Quote err)))))) /\
  (Forall parses (Schedule cfg) ->
   exists s,
     New cfg = Some (Ok s) /\
     defaultAlbum s = DefaultAlbum cfg /\
     length (ranges s) = length (Schedule cfg) /\
     Forall2 compiled_from (Schedule cfg) (ranges s)).
Proof.
  split.
  - intros Hex. unfold New.
    destruct (New_loop_fails (Schedule cfg) Hex [])
      as (e & pre & entry & post & HN & Hsplit & Hpre & Herr).
    rewrite HN. simpl.
    destruct Herr as [(err & Hs & ->) | (err & Hs & He & ->)].
    + eexists _, pre, entry, post, err.
      split; [reflexivity |]. split; [exact Hsplit |]. split; [exact Hpre |].
      left. split; [exact Hs |]. split; [reflexivity | apply Error_start].
    + eexists _, pre, entry, post, err.
      split; [reflexivity |]. split; [exact Hsplit |]. split; [exact Hpre |].
      right. split; [exact Hs |]. split; [exact He |].
      split; [reflexivity | apply Error_end].
  - intros Hall.
    destruct (New_loop_parses (Schedule cfg) Hall []) as (new & HN).
    assert (HNew : New cfg
                   = Some (Ok {| defaultAlbum := DefaultAlbum cfg;
                                 ranges := [] ++ new |}))
      by (unfold New; rewrite HN; reflexivity).
    eexists. split; [exact HNew |].
    destruct (New_Ok_inv _ _ HNew) as [Hd HF].
    split; [exact Hd |]. split; [| exact HF].
    symmetry. eapply Forall2_length. exact HF.
Qed.

Lemma New_all_or_nothing_witness :
  Forall parses (Schedule overlap_cfg) /\
  exists s,
    New overlap_cfg = Some (Ok s) /\
    defaultAlbum s = DefaultAlbum overlap_cfg /\
    length (ranges s) = length (Schedule overlap_cfg) /\
    Forall2 compiled_from (Schedule overlap_cfg) (ranges s).
Proof.
  assert (Hall : Forall parses (Schedule overlap_cfg)).
  { repeat constructor.
    - exists 12, 20, 12, 26. split; reflexivity.
    - exists 11, 15, 1, 1. split; reflexivity. }
  split; [exact Hall |].
  apply (proj2 (New_all_or_nothing (fun s => s) overlap_cfg) Hall).
Defined.

(** ** Lookups *)

(** On a range with validated boundaries [dateInRange] returns, and tests
    the day-of-year against the two ordinals, inclusively. *)
Lemma dateInRange_valid (s : Scheduler) (currentDOY : Z) (r : dateRange) :
  valid_pair (startMonth r) (startDay r) ->
  valid_pair (endMonth r) (endDay r) ->
  dateInRange s currentDOY r
  = Some (if wrapsYear r
          then (currentDOY >=? ToOrdinal (startMonth r) (startDay r))
               || (currentDOY <=? ToOrdinal (endMonth r) (endDay r))
          else (currentDOY >=? ToOrdinal (startMonth r) (startDay r))
               && (currentDOY <=? ToOrdinal (endMonth r) (endDay r))).
Proof.
  intros Hs He. unfold dateInRange.
  rewrite (monthDayToDOY_ToOrdinal _ _ Hs), (monthDayToDOY_ToOrdinal _ _ He).
  simpl. destruct (wrapsYear r); reflexivity.
Qed.

Lemma dateInRange_compiled (cfg : Config) (s : Scheduler) (r : dateRange)
    (currentDOY : Z) :
  New cfg = Some (Ok s) -> In r (ranges s) ->
  exists b, dateInRange s currentDOY r = Some b.
Proof.
  intros HN Hin.
  destruct (New_range_compiled cfg s r HN Hin) as (entry & _ & Hc).
  destruct (compiled_from_valid entry r Hc) as (Hs & He & _).
  rewrite (dateInRange_valid s currentDOY r Hs He). eauto.
Qed.

(** The loop of the lookups stops at the first range the day is in. *)
Lemma lookup_loop_first (s : Scheduler) (currentDOY : Z)
    (f : dateRange -> string) (dflt : string)
    (pre : list dateRange) (r : dateRange) (post : list dateRange) :
  (forall r', In r' pre -> dateInRange s currentDOY r' = Some false) ->
  dateInRange s currentDOY r = Some true ->
  lookup_loop s currentDOY f dflt (pre ++ r :: post) = Some (f r).
Proof.
  intros Hpre Hr. induction pre as [| r0 pre IH]; simpl.
  - rewrite Hr. reflexivity.
  - rewrite (Hpre r0 (or_introl eq_refl)). simpl.
    apply IH. intros r' Hin. apply Hpre. right. exact Hin.
Qed.

(** The loop of the lookups reaches the default when the day is in no
    range. *)
Lemma lookup_loop_none (s : Scheduler) (currentDOY : Z)
    (f : dateRange -> string) (dflt : string) (rs : list dateRange) :
  (forall r, In r rs -> dateInRange s currentDOY r = Some false) ->
  lookup_loop s currentDOY f dflt rs = Some dflt.
Proof.
  intros Hrs. induction rs as [| r rs IH]; simpl; [reflexivity |].
  rewrite (Hrs r (or_introl eq_refl)). simpl.
  apply IH. intros r' Hin. apply Hrs. right. exact Hin.
Qed.

(** The loop of the lookups does not panic when [dateInRange] does not. *)
Lemma lookup_loop_returns (s : Scheduler) (currentDOY : Z)
    (f : dateRange -> string) (dflt : string) (rs : list dateRange) :
  (forall r, In r rs -> exists b, dateInRange s currentDOY r = Some b) ->
  exists v, lookup_loop s currentDOY f dflt rs = Some v.
Proof.
  intros Hrs. induction rs as [| r rs IH]; simpl; [eauto |].
  destruct (Hrs r (or_introl eq_refl)) as [[|] ->]; simpl; [eauto |].
  apply IH. intros r' Hin. apply Hrs. right. exact Hin.
Qed.

(** In a constructed scheduler, a range the date is not in answers
    [false]. *)
Lemma not_matches_date_false (cfg : Config) (s : Scheduler) (t : time.Time)
    (r : dateRange) (currentDOY : Z) :
  New cfg = Some (Ok s) -> In r (ranges s) ->
  monthDayToDOY (time.Month t) (time.Day t) = Some currentDOY ->
  ~ matches_date s t r ->
  dateInRange s currentDOY r = Some false.
Proof.
  intros HN Hin Hdoy Hno.
  destruct (dateInRange_compiled cfg s r currentDOY HN Hin) as [[|] Hb];
    [| exact Hb].
  destruct Hno. exists currentDOY. auto.
Qed.

(** The scheduler [New] builds from the configuration of the test
    [FirstMatchWins]. *)
Lemma New_overlap_cfg : New overlap_cfg = Some (Ok overlap_scheduler).
Proof. reflexivity. Qed.

(** C1: for every range of a constructed scheduler, both boundaries have
    an ordinal, [wrapsYear] is true if and only if the ordinal of the end
    is strictly smaller than the ordinal of the start, and for every day
    of the year [dateInRange] answers true exactly when, for a wrapping
    range, the day is at or after the start or at or before the end, and
    otherwise at or after the start and at or before the end. *)
Theorem compiled_range_membership (cfg : Config) (s : Scheduler)
    (r : dateRange) :
  New cfg = Some (Ok s) -> In r (ranges s) ->
  exists startDOY endDOY,
    monthDayToDOY (startMonth r) (startDay r) = Some startDOY /\
    monthDayToDOY (endMonth r) (endDay r) = Some endDOY /\
    (wrapsYear r = true <-> endDOY < startDOY) /\
    forall currentDOY, exists b,
      dateInRange s currentDOY r = Some b /\
      (b = true <->
       if wrapsYear r
       then currentDOY >= startDOY \/ currentDOY <= endDOY
       else currentDOY >= startDOY /\ currentDOY <= endDOY).
Proof.
  intros HN Hin.
  destruct (New_range_compiled cfg s r HN Hin) as (entry & _ & Hc).
  destruct (compiled_from_valid entry r Hc) as (Hs & He & Hw).
  exists (ToOrdinal (startMonth r) (startDay r)),
         (ToOrdinal (endMonth r) (endDay r)).
  split; [apply (monthDayToDOY_ToOrdinal _ _ Hs) |].
  split; [apply (monthDayToDOY_ToOrdinal _ _ He) |].
  split.
  - rewrite Hw. unfold Spec.IsWrap. apply Z.ltb_lt.
  - intros currentDOY. eexists. split.
    + apply (dateInRange_valid s currentDOY r Hs He).
    + destruct (wrapsYear r).
      * rewrite orb_true_iff, Z.geb_le, Z.leb_le. lia.
      * rewrite andb_true_iff, Z.geb_le, Z.leb_le. lia.
Qed.

Lemma compiled_range_membership_witness :
  New overlap_cfg = Some (Ok overlap_scheduler) /\
  In christmas_range (ranges overlap_scheduler) /\
  exists startDOY endDOY,
    monthDayToDOY (startMonth christmas_range) (startDay christmas_range)
    = Some startDOY /\
    monthDayToDOY (endMonth christmas_range) (endDay christmas_range)
    = Some endDOY /\
    (wrapsYear christmas_range = true <-> endDOY < startDOY) /\
    forall currentDOY, exists b,
      dateInRange overlap_scheduler currentDOY christmas_range = Some b /\
      (b = true <->
       if wrapsYear christmas_range
       then currentDOY >= startDOY \/ currentDOY <= endDOY
       else currentDOY >= startDOY /\ currentDOY <= endDOY).
Proof.
  assert (HN := New_overlap_cfg).
  assert (Hin : In christmas_range (ranges overlap_scheduler))
    by (simpl; auto).
  split; [exact HN |]. split; [exact Hin |].
  apply (compiled_range_membership overlap_cfg _ _ HN Hin).
Defined.

(** C2: in a constructed scheduler, for a date that is in the range [r]
    and in no range stored before [r], both lookups return the album and
    the name of [r], whatever ranges follow it and whether or not the date
    is in them, and whatever the width or the wrap status of [r]; with
    "special" 12-20..12-26 declared before "christmas" 11-15..01-01, the
    date 12-25 is in both and resolves to "special", and the date 11-20
    resolves to "christmas". *)
Theorem first_match_wins :
  (forall (cfg : Config) (s : Scheduler) (t : time.Time)
          (pre : list dateRange) (r : dateRange) (post : list dateRange),
     New cfg = Some (Ok s) ->
     ranges s = pre ++ r :: post ->
     (forall r', In r' pre -> ~ matches_date s t r') ->
     matches_date s t r ->
     GetAlbumForDate s t = Some (album r) /\
     GetScheduleNameForDate s t = Some (name r)) /\
  (exists s special christmas,
     New overlap_cfg = Some (Ok s) /\
     ranges s = [special; christmas] /\
     name special = "special" /\ name christmas = "christmas" /\
     matches_date s (date 12 25) special /\
     matches_date s (date 12 25) christmas /\
     GetAlbumForDate s (date 12 25) = Some "special-album" /\
     GetScheduleNameForDate s (date 12 25) = Some "special" /\
     ~ matches_date s (date 11 20) special /\
     matches_date s (date 11 20) christmas /\
     GetAlbumForDate s (date 11 20) = Some "christmas-album" /\
     GetScheduleNameForDate s (date 11 20) = Some "christmas").
Proof.
  split.
  - intros cfg s t pre r post HN Hranges Hpre (currentDOY & Hdoy & Hr).
    assert (Hfalse : forall r', In r' pre ->
                       dateInRange s currentDOY r' = Some false).
    { intros r' Hin.
      apply (not_matches_date_false cfg s t r' currentDOY HN); auto.
      rewrite Hranges. apply in_or_app. left. exact Hin. }
    unfold GetAlbumForDate, GetScheduleNameForDate.
    rewrite Hdoy, Hranges. simpl.
    split; apply lookup_loop_first; assumption.
  - eexists _, _, _. split; [apply New_overlap_cfg |].
    split; [reflexivity |].
    split; [reflexivity |]. split; [reflexivity |].
    split; [exists 360; split; reflexivity |].
    split; [exists 360; split; reflexivity |].
    split; [reflexivity |]. split; [reflexivity |].
    split.
    { intros (currentDOY & Hdoy & Hr).
      vm_compute in Hdoy. injection Hdoy as <-.
      vm_compute in Hr. discriminate. }
    split; [exists 325; split; reflexivity |].
    split; reflexivity.
Qed.

Lemma first_match_wins_witness :
  New overlap_cfg = Some (Ok overlap_scheduler) /\
  ranges overlap_scheduler = [] ++ special_range :: [christmas_range] /\
  (forall r', In r' [] -> ~ matches_date overlap_scheduler (date 12 25) r') /\
  matches_date overlap_scheduler (date 12 25) special_range /\
  GetAlbumForDate overlap_scheduler (date 12 25)
  = Some (album special_range) /\
  GetScheduleNameForDate overlap_scheduler (date 12 25)
  = Some (name special_range).
Proof.
  assert (HN := New_overlap_cfg).
  assert (Hr : ranges overlap_scheduler
               = [] ++ special_range :: [christmas_range]) by reflexivity.
  assert (Hpre : forall r', In r' [] ->
                   ~ matches_date overlap_scheduler (date 12 25) r')
    by (intros r' []).
  assert (Hm : matches_date overlap_scheduler (date 12 25) special_range)
    by (exists 360; split; reflexivity).
  split; [exact HN |]. split; [exact Hr |].
  split; [exact Hpre |]. split; [exact Hm |].
  apply (proj1 first_match_wins overlap_cfg overlap_scheduler (date 12 25)
           [] special_range [christmas_range] HN Hr Hpre Hm).
Defined.

(** C5: the lookups never fail on a constructed scheduler, also one built
    from an empty schedule, which [New] accepts: for every date both
    return, and when the date is in no range (in particular when there is
    no range) [GetAlbumForDate] returns the configured default album and
    [GetScheduleNameForDate] the string "default". *)
Theorem lookups_never_fail :
  (forall cfg : Config,
     Schedule cfg = [] ->
     New cfg = Some (Ok {| defaultAlbum := DefaultAlbum cfg;
                           ranges := [] |})) /\
  (forall (cfg : Config) (s : Scheduler) (t : time.Time),
     New cfg = Some (Ok s) -> time.valid t ->
     exists a n,
       GetAlbumForDate s t = Some a /\
       GetScheduleNameForDate s t = Some n /\
       ((forall r, In r (ranges s) -> ~ matches_date s t r) ->
        a = DefaultAlbum cfg /\ n = "default") /\
       (Schedule cfg = [] -> a = DefaultAlbum cfg /\ n = "default")).
Proof.
  split.
  - intros cfg Hempty. unfold New. rewrite Hempty. reflexivity.
  - intros cfg s t HN Ht.
    assert (Hdoy := monthDayToDOY_ToOrdinal _ _ Ht).
    set (currentDOY := ToOrdinal (time.Month t) (time.Day t)) in *.
    assert (Hall : forall r, In r (ranges s) ->
                     exists b, dateInRange s currentDOY r = Some b)
      by (intros r Hin; apply (dateInRange_compiled cfg s r _ HN Hin)).
    destruct (lookup_loop_returns s currentDOY album (defaultAlbum s)
                (ranges s) Hall) as [a Ha].
    destruct (lookup_loop_returns s currentDOY name "default"
                (ranges s) Hall) as [n Hn].
    assert (Hnone : (forall r, In r (ranges s) -> ~ matches_date s t r) ->
                    a = DefaultAlbum cfg /\ n = "default").
    { intros Hno.
      assert (Hfalse : forall r, In r (ranges s) ->
                         dateInRange s currentDOY r = Some false)
        by (intros r Hin;
            apply (not_matches_date_false cfg s t r _ HN Hin Hdoy (Hno r Hin))).
      rewrite (lookup_loop_none _ _ _ _ _ Hfalse) in Ha.
      rewrite (lookup_loop_none _ _ _ _ _ Hfalse) in Hn.
      injection Ha as <-. injection Hn as <-.
      split; [apply (proj1 (New_Ok_inv cfg s HN)) | reflexivity]. }
    exists a, n. unfold GetAlbumForDate, GetScheduleNameForDate.
    rewrite Hdoy. simpl.
    split; [exact Ha |]. split; [exact Hn |]. split; [exact Hnone |].
    intros Hempty. apply Hnone. intros r Hin.
    destruct (New_Ok_inv cfg s HN) as [_ HF].
    rewrite Hempty in HF. apply Forall2_length in HF.
    destruct (ranges s); [destruct Hin | discriminate HF].
Qed.

Lemma lookups_never_fail_witness :
  New (mkConfig "default-album" [])
  = Some (Ok {| defaultAlbum := "default-album"; ranges := [] |}) /\
  time.valid (date 7 15) /\
  exists a n,
    GetAlbumForDate {| defaultAlbum := "default-album"; ranges := [] |}
      (date 7 15) = Some a /\
    GetScheduleNameForDate {| defaultAlbum := "default-album"; ranges := [] |}
      (date 7 15) = Some n /\
    ((forall r, In r [] ->
        ~ matches_date {| defaultAlbum := "default-album"; ranges := [] |}
            (date 7 15) r) ->
     a = "default-album" /\ n = "default") /\
    (@nil ScheduleEntry = [] -> a = "default-album" /\ n = "default").
Proof.
  assert (HN : New (mkConfig "default-album" [])
               = Some (Ok {| defaultAlbum := "default-album"; ranges := [] |}))
    by reflexivity.
  assert (Ht : time.valid (date 7 15)) by (unfold time.valid; simpl; lia).
  split; [exact HN |]. split; [exact Ht |].
  apply (proj2 lookups_never_fail (mkConfig "default-album" []) _ _ HN Ht).
Defined.

(** C8: a range of a constructed scheduler whose start and end have the
    same ordinal does not wrap, and [dateInRange] answers true exactly on
    that ordinal: the dates in the range are the dates with that ordinal,
    and no other. *)
Theorem single_day_range (cfg : Config) (s : Scheduler) (r : dateRange)
    (o : Z) :
  New cfg = Some (Ok s) -> In r (ranges s) ->
  monthDayToDOY (startMonth r) (startDay r) = Some o ->
  monthDayToDOY (endMonth r) (endDay r) = Some o ->
  wrapsYear r = false /\
  (forall currentDOY, dateInRange s currentDOY r = Some (currentDOY =? o)) /\
  (forall t : time.Time,
     time.valid t ->
     (matches_date s t r <->
      monthDayToDOY (time.Month t) (time.Day t) = Some o)).
Proof.
  intros HN Hin Hso Heo.
  destruct (New_range_compiled cfg s r HN Hin) as (entry & _ & Hc).
  destruct (compiled_from_valid entry r Hc) as (Hs & He & Hw).
  rewrite (monthDayToDOY_ToOrdinal _ _ Hs) in Hso.
  rewrite (monthDayToDOY_ToOrdinal _ _ He) in Heo.
  injection Hso as Hso. injection Heo as Heo.
  assert (Hnowrap : wrapsYear r = false).
  { rewrite Hw. unfold Spec.IsWrap. rewrite Hso, Heo. apply Z.ltb_irrefl. }
  assert (Hin_range : forall currentDOY,
            dateInRange s currentDOY r = Some (currentDOY =? o)).
  { intros currentDOY.
    rewrite (dateInRange_valid s currentDOY r Hs He), Hnowrap, Hso, Heo.
    f_equal. destruct (Z.eqb_spec currentDOY o) as [-> | Hne].
    - rewrite Z.geb_leb, !Z.leb_refl. reflexivity.
    - apply andb_false_iff. rewrite Z.geb_leb, !Z.leb_gt. lia. }
  split; [exact Hnowrap |]. split; [exact Hin_range |].
  intros t Ht. unfold matches_date.
  rewrite (monthDayToDOY_ToOrdinal _ _ Ht). split.
  - intros (currentDOY & [= <-] & Hr).
    rewrite Hin_range in Hr. injection Hr as Hr.
    apply Z.eqb_eq in Hr. rewrite Hr. reflexivity.
  - intros [= Ho]. eexists. split; [reflexivity |].
    rewrite Hin_range, Ho, Z.eqb_refl. reflexivity.
Qed.

Lemma single_day_range_witness :
  New single_day_cfg = Some (Ok single_day_scheduler) /\
  In fourth_range (ranges single_day_scheduler) /\
  monthDayToDOY (startMonth fourth_range) (startDay fourth_range)
  = Some 186 /\
  monthDayToDOY (endMonth fourth_range) (endDay fourth_range) = Some 186 /\
  wrapsYear fourth_range = false /\
  (forall currentDOY,
     dateInRange single_day_scheduler currentDOY fourth_range
     = Some (currentDOY =? 186)) /\
  (forall t : time.Time,
     time.valid t ->
     (matches_date single_day_scheduler t fourth_range <->
      monthDayToDOY (time.Month t) (time.Day t) = Some 186)).
Proof.
  assert (HN : New single_day_cfg = Some (Ok single_day_scheduler))
    by reflexivity.
  assert (Hin : In fourth_range (ranges single_day_scheduler))
    by (simpl; auto).
  assert (Hs : monthDayToDOY (startMonth fourth_range) (startDay fourth_range)
               = Some 186) by reflexivity.
  assert (He : monthDayToDOY (endMonth fourth_range) (endDay fourth_range)
               = Some 186) by reflexivity.
  split; [exact HN |]. split; [exact Hin |].
  split; [exact Hs |]. split; [exact He |].
  apply (single_day_range single_day_cfg _ _ 186 HN Hin Hs He).
Defined.

(** ** The lookup recomputes what the specification caches *)

(** C9: for the range a constructed scheduler stores at a position and the
    entry of the configuration at that position, the specification
    compiles the entry, once, to a range with the same name, value and wrap
    flag whose cached ordinals are the ordinals [dateInRange] recomputes
    from the stored boundaries, and for every day of the year
    [dateInRange] answers what the membership predicate over the cached
    ordinals answers. *)
Theorem dateInRange_refines_cached (cfg : Config) (s : Scheduler) (i : nat)
    (entry : ScheduleEntry) (r : dateRange) :
  New cfg = Some (Ok s) ->
  Schedule cfg !! i = Some entry ->
  ranges s !! i = Some r ->
  exists c : Spec.CompiledRange,
    Spec.compile entry = Some c /\
    Spec.name c = name r /\
    Spec.value c = album r /\
    Spec.wrapsYear c = wrapsYear r /\
    monthDayToDOY (startMonth r) (startDay r) = Some (Spec.startDOY c) /\
    monthDayToDOY (endMonth r) (endDay r) = Some (Spec.endDOY c) /\
    forall currentDOY,
      dateInRange s currentDOY r = Some (Spec.matches currentDOY c).
Proof.
  intros HN He Hr.
  destruct (New_Ok_inv cfg s HN) as [_ HF].
  assert (Hc : compiled_from entry r)
    by (apply (Forall2_lookup_lr _ _ _ _ _ _ HF He Hr)).
  destruct (compiled_from_valid entry r Hc) as (Hs & Hend & Hw).
  destruct Hc as (Hname & Halbum & Hps & Hpe & _).
  unfold Spec.compile. rewrite Hps, Hpe.
  eexists. split; [reflexivity |]. simpl.
  split; [symmetry; exact Hname |].
  split; [symmetry; exact Halbum |].
  split; [symmetry; exact Hw |].
  split; [apply (monthDayToDOY_ToOrdinal _ _ Hs) |].
  split; [apply (monthDayToDOY_ToOrdinal _ _ Hend) |].
  intros currentDOY.
  rewrite (dateInRange_valid s currentDOY r Hs Hend).
  unfold Spec.matches. simpl. rewrite Hw. reflexivity.
Qed.

Lemma dateInRange_refines_cached_witness :
  New overlap_cfg = Some (Ok overlap_scheduler) /\
  Schedule overlap_cfg !! 1%nat
  = Some (mkEntry "christmas" "christmas-album" "11-15" "01-01") /\
  ranges overlap_scheduler !! 1%nat = Some christmas_range /\
  exists c : Spec.CompiledRange,
    Spec.compile (mkEntry "christmas" "christmas-album" "11-15" "01-01")
    = Some c /\
    Spec.name c = name christmas_range /\
    Spec.value c = album christmas_range /\
    Spec.wrapsYear c = wrapsYear christmas_range /\
    monthDayToDOY (startMonth christmas_range) (startDay christmas_range)
    = Some (Spec.startDOY c) /\
    monthDayToDOY (endMonth christmas_range) (endDay christmas_range)
    = Some (Spec.endDOY c) /\
    forall currentDOY,
      dateInRange overlap_scheduler currentDOY christmas_range
      = Some (Spec.matches currentDOY c).
Proof.
  assert (HN := New_overlap_cfg).
  assert (He : Schedule overlap_cfg !! 1%nat
               = Some (mkEntry "christmas" "christmas-album" "11-15" "01-01"))
    by reflexivity.
  assert (Hr : ranges overlap_scheduler !! 1%nat = Some christmas_range)
    by reflexivity.
  split; [exact HN |]. split; [exact He |]. split; [exact Hr |].
  apply (dateInRange_refines_cached overlap_cfg overlap_scheduler 1
           _ _ HN He Hr).
Defined.

(** ** Beyond the lookups: panics, counts and the choice of the range *)

Lemma index_daysInMonth (m : Z) :
  1 <= m <= 12 -> exists d, index daysInMonth m = Some d /\ 0 <= d <= 31.
Proof.
  intros Hm. month_cases m H; eexists; (split; [reflexivity | lia]).
Qed.

(** The loop of [monthDayToDOY] panics when it reaches the index 13. *)
Lemma monthDayToDOY_loop_panics (iters : nat) :
  forall m doy,
    1 <= m <= 13 -> 14 <= m + Z.of_nat iters ->
    monthDayToDOY_loop iters m doy = None.
Proof.
  induction iters as [| iters IH]; intros m doy Hm Hreach; [lia |].
  simpl. destruct (Z.eq_dec m 13) as [-> | Hne]; [reflexivity |].
  destruct (index_daysInMonth m ltac:(lia)) as (d & -> & _). simpl.
  apply IH; lia.
Qed.

(** Out of the table: [monthDayToDOY] panics exactly for a month of 14 or
    more; for a month of 1 or less the loop does not run and the ordinal
    is the day; for the month 13 the whole table is summed. *)
Theorem monthDayToDOY_out_of_table (month day : Z) :
  (monthDayToDOY month day = None <-> 14 <= month) /\
  (month <= 1 -> int_min <= day <= int_max ->
   monthDayToDOY month day = Some day) /\
  (month = 13 -> 1 <= day <= 31 ->
   monthDayToDOY month day = Some (366 + day)).
Proof.
  split; [| split].
  - split.
    + intros Hnone.
      destruct (Z_lt_le_dec month 14) as [Hlt | Hge]; [| exact Hge].
      exfalso. unfold monthDayToDOY in Hnone.
      destruct (Z_le_gt_dec month 1) as [Hle | Hgt].
      * replace (Z.to_nat (month - 1)) with 0%nat in Hnone by lia.
        discriminate Hnone.
      * assert (Hc : month = 2 \/ month = 3 \/ month = 4 \/ month = 5 \/
                     month = 6 \/ month = 7 \/ month = 8 \/ month = 9 \/
                     month = 10 \/ month = 11 \/ month = 12 \/ month = 13)
          by lia.
        repeat (destruct Hc as [Hc | Hc]); subst month; discriminate Hnone.
    + intros Hge. unfold monthDayToDOY.
      rewrite (monthDayToDOY_loop_panics (Z.to_nat (month - 1)) 1 0);
        [reflexivity | lia | lia].
  - intros Hle Hday. unfold monthDayToDOY.
    replace (Z.to_nat (month - 1)) with 0%nat by lia. simpl.
    rewrite int_add_small; [reflexivity | exact Hday].
  - intros -> Hday. unfold monthDayToDOY.
    change (monthDayToDOY_loop (Z.to_nat (13 - 1)) 1 0) with (Some 366).
    simpl. rewrite int_add_small; [reflexivity |].
    unfold int_min, int_max. lia.
Qed.

Lemma monthDayToDOY_out_of_table_witness :
  0 <= 1 /\ int_min <= 15 <= int_max /\ monthDayToDOY 0 15 = Some 15.
Proof.
  assert (Hm : 0 <= 1) by lia.
  assert (Hd : int_min <= 15 <= int_max) by (unfold int_min, int_max; lia).
  split; [exact Hm |]. split; [exact Hd |].
  apply (proj1 (proj2 (monthDayToDOY_out_of_table 0 15)) Hm Hd).
Defined.

(** [New] never panics: [isYearWrap] is only reached with two validated
    pairs. *)
Theorem New_never_panics (cfg : Config) :
  exists r, New cfg = Some r.
Proof.
  unfold New.
  assert (H : forall entries rs, exists r, New_loop entries rs = Some r).
  { induction entries as [| entry entries IH]; intros rs; simpl; [eauto |].
    destruct (ParseMonthDay (Start entry)) as [[sm sd] | err] eqn:Es;
      [| eauto].
    destruct (ParseMonthDay (End_ entry)) as [[em ed] | err] eqn:Ee;
      [| eauto].
    rewrite (isYearWrap_valid sm sd em ed
               (ParseMonthDay_valid _ _ _ Es) (ParseMonthDay_valid _ _ _ Ee)).
    simpl. apply IH. }
  destruct (H (Schedule cfg) []) as [r ->]. simpl. eauto.
Qed.

(** A constructed scheduler reports as many schedules as the
    configuration has entries and the configured default album, and its
    ranges carry the names and the albums of the entries, unchanged and
    in order. *)
Theorem New_count_and_default (cfg : Config) (s : Scheduler) :
  New cfg = Some (Ok s) ->
  GetScheduleCount s = Z.of_nat (length (Schedule cfg)) /\
  GetDefaultAlbum s = DefaultAlbum cfg /\
  List.map name (ranges s) = List.map Name (Schedule cfg) /\
  List.map album (ranges s) = List.map Album (Schedule cfg).
Proof.
  intros HN. destruct (New_Ok_inv cfg s HN) as [Hd HF].
  unfold GetScheduleCount, GetDefaultAlbum.
  split; [f_equal; symmetry; eapply Forall2_length; exact HF |].
  split; [exact Hd |].
  induction HF as [| entry r es rs (Hn & Ha & _) _ [IHn IHa]];
    [split; reflexivity |].
  simpl. rewrite Hn, Ha, IHn, IHa. split; reflexivity.
Qed.

Lemma New_count_and_default_witness :
  New overlap_cfg = Some (Ok overlap_scheduler) /\
  GetScheduleCount overlap_scheduler
  = Z.of_nat (length (Schedule overlap_cfg)) /\
  GetDefaultAlbum overlap_scheduler = DefaultAlbum overlap_cfg /\
  List.map name (ranges overlap_scheduler)
  = List.map Name (Schedule overlap_cfg) /\
  List.map album (ranges overlap_scheduler)
  = List.map Album (Schedule overlap_cfg).
Proof.
  assert (HN := New_overlap_cfg).
  split; [exact HN |].
  apply (New_count_and_default overlap_cfg overlap_scheduler HN).
Defined.

Lemma lookup_loop_first_in (s : Scheduler) (currentDOY : Z)
    (f : dateRange -> string) (dflt : string) (rs : list dateRange) :
  (forall r, In r rs -> exists b, dateInRange s currentDOY r = Some b) ->
  lookup_loop s currentDOY f dflt rs
  = Some (match first_in s currentDOY rs with
          | Some r => f r
          | None => dflt
          end).
Proof.
  intros Hrs. induction rs as [| r rs IH]; simpl; [reflexivity |].
  destruct (Hrs r (or_introl eq_refl)) as [[|] Hb]; rewrite Hb; simpl;
    [reflexivity |].
  apply IH. intros r' Hin. apply Hrs. right. exact Hin.
Qed.

(** On a constructed scheduler the two lookups choose the same range: for
    every date, the album and the name they return are those of the first
    stored range the date is in, or the default album and "default" when
    there is none. *)
Theorem lookups_choose_same_range (cfg : Config) (s : Scheduler)
    (t : time.Time) :
  New cfg = Some (Ok s) -> time.valid t ->
  exists currentDOY,
    monthDayToDOY (time.Month t) (time.Day t) = Some currentDOY /\
    match first_in s currentDOY (ranges s) with
    | Some r =>
        In r (ranges s) /\ matches_date s t r /\
        GetAlbumForDate s t = Some (album r) /\
        GetScheduleNameForDate s t = Some (name r)
    | None =>
        (forall r, In r (ranges s) -> ~ matches_date s t r) /\
        GetAlbumForDate s t = Some (DefaultAlbum cfg) /\
        GetScheduleNameForDate s t = Some "default"
    end.
Proof.
  intros HN Ht.
  assert (Hdoy := monthDayToDOY_ToOrdinal _ _ Ht).
  set (currentDOY := ToOrdinal (time.Month t) (time.Day t)) in *.
  exists currentDOY. split; [exact Hdoy |].
  assert (Hall : forall r, In r (ranges s) ->
                   exists b, dateInRange s currentDOY r = Some b)
    by (intros r Hin; apply (dateInRange_compiled cfg s r _ HN Hin)).
  unfold GetAlbumForDate, GetScheduleNameForDate. rewrite Hdoy. simpl.
  rewrite !(lookup_loop_first_in s currentDOY _ _ (ranges s) Hall).
  destruct (first_in s currentDOY (ranges s)) as [r |] eqn:Ef.
  - apply find_some in Ef. destruct Ef as [Hin Hr].
    split; [exact Hin |]. split; [| split; reflexivity].
    exists currentDOY. split; [exact Hdoy |].
    destruct (dateInRange s currentDOY r) as [[|] |]; try discriminate Hr.
    reflexivity.
  - split; [| split; [| reflexivity]].
    + intros r Hin (doy' & Hdoy' & Hr).
      rewrite Hdoy in Hdoy'. injection Hdoy' as <-.
      assert (Hf := find_none _ _ Ef r Hin). simpl in Hf.
      rewrite Hr in Hf. discriminate Hf.
    + rewrite (proj1 (New_Ok_inv cfg s HN)). reflexivity.
Qed.

Lemma lookups_choose_same_range_witness :
  New overlap_cfg = Some (Ok overlap_scheduler) /\
  time.valid (date 12 25) /\
  exists currentDOY,
    monthDayToDOY (time.Month (date 12 25)) (time.Day (date 12 25))
    = Some currentDOY /\
    match first_in overlap_scheduler currentDOY (ranges overlap_scheduler) with
    | Some r =>
        In r (ranges overlap_scheduler) /\
        matches_date overlap_scheduler (date 12 25) r /\
        GetAlbumForDate overlap_scheduler (date 12 25) = Some (album r) /\
        GetScheduleNameForDate overlap_scheduler (date 12 25)
        = Some (name r)
    | None =>
        (forall r, In r (ranges overlap_scheduler) ->
           ~ matches_date overlap_scheduler (date 12 25) r) /\
        GetAlbumForDate overlap_scheduler (date 12 25)
        = Some (DefaultAlbum overlap_cfg) /\
        GetScheduleNameForDate overlap_scheduler (date 12 25)
        = Some "default"
    end.
Proof.
  assert (HN := New_overlap_cfg).
  assert (Ht : time.valid (date 12 25)) by (unfold time.valid; simpl; lia).
  split; [exact HN |]. split; [exact Ht |].
  apply (lookups_choose_same_range overlap_cfg overlap_scheduler
           (date 12 25) HN Ht).
Defined.

(** ** Validation of the configuration *)

Lemma index_maxDays (month : Z) :
  1 <= month <= 12 ->
  exists max, index maxDays (month - 1) = Some max /\
              index daysInMonth month = Some max.
Proof.
  intros Hm. month_cases month H; eexists; split; reflexivity.
Qed.

(** [validateDate] accepts exactly the strings that [ParseMonthDay]
    parses to a day that exists in its month. *)
Lemma validateDate_Ok_iff (s : string) :
  validateDate s = Some no_error <->
  exists month day,
    ParseMonthDay s = Ok (month, day) /\ within_month month day.
Proof.
  split.
  - intros H. unfold validateDate in H.
    destruct (Split s "-") as [| p0 [| p1 [| p2 ps]]] eqn:Es;
      try discriminate.
    destruct (Atoi p0) as [m |] eqn:E0; [| discriminate].
    destruct ((m <? 1) || (m >? 12)) eqn:Bm; [discriminate |].
    destruct (Atoi p1) as [d |] eqn:E1; [| discriminate].
    destruct ((d <? 1) || (d >? 31)) eqn:Bd; [discriminate |].
    destruct (index maxDays (m - 1)) as [max |] eqn:Ei; [| discriminate].
    simpl in H. destruct (d >? max) eqn:Bx; [discriminate |].
    apply bounds_test in Bm, Bd. exists m, d. split.
    + apply ParseMonthDay_Ok_iff. exists p0, p1. auto.
    + exists max. split; [exact Ei |]. rewrite Z.gtb_ltb, Z.ltb_ge in Bx. lia.
  - intros (m & d & Hp & max & Ei & Hle).
    apply ParseMonthDay_Ok_iff in Hp.
    destruct Hp as (p0 & p1 & Es & E0 & Hm & E1 & Hd).
    unfold validateDate. rewrite Es, E0, E1.
    apply bounds_test in Hm, Hd. rewrite Hm, Hd, Ei. simpl.
    replace (d >? max) with false; [reflexivity |].
    symmetry. rewrite Z.gtb_ltb, Z.ltb_ge. lia.
Qed.

Lemma validateDate_returns (s : string) :
  exists r, validateDate s = Some r.
Proof.
  unfold validateDate.
  destruct (Split s "-") as [| p0 [| p1 [| p2 ps]]]; eauto.
  destruct (Atoi p0) as [m |]; [| eauto].
  destruct ((m <? 1) || (m >? 12)) eqn:Bm; [eauto |].
  destruct (Atoi p1) as [d |]; [| eauto].
  destruct ((d <? 1) || (d >? 31)) eqn:Bd; [eauto |].
  apply bounds_test in Bm.
  destruct (index_maxDays m Bm) as (max & -> & _). simpl.
  destruct (d >? max); eauto.
Qed.

(** [validateDate] is the parse of the scheduler followed by the check of
    the day against its month: it never panics on [maxDays[month-1]], it
    returns [nil] exactly on the strings that [ParseMonthDay] parses to a
    day that exists in its month (February with 29 days), and every
    string that [ParseMonthDay] rejects, it rejects. *)
Theorem validateDate_refines_ParseMonthDay (s : string) :
  (exists r, validateDate s = Some r) /\
  (validateDate s = Some no_error <->
   exists month day,
     ParseMonthDay s = Ok (month, day) /\ within_month month day) /\
  (is_Err (ParseMonthDay s) -> exists err, validateDate s = Some (Err err)).
Proof.
  assert (Hret := validateDate_returns s).
  split; [exact Hret |]. split; [apply validateDate_Ok_iff |].
  intros Herr. destruct Hret as [[[] | err] Hr]; [| eauto].
  apply validateDate_Ok_iff in Hr. destruct Hr as (m & d & Hp & _).
  rewrite Hp in Herr. destruct Herr.
Qed.

Lemma validateDate_refines_ParseMonthDay_witness :
  is_Err (ParseMonthDay "13-01") /\
  exists err, validateDate "13-01" = Some (Err err).
Proof.
  assert (Herr : is_Err (ParseMonthDay "13-01")) by exact I.
  split; [exact Herr |].
  apply (proj2 (proj2 (validateDate_refines_ParseMonthDay "13-01")) Herr).
Defined.

Lemma monthDayToDOY_strictly_monotone_aux (m1 d1 m2 d2 len : Z) :
  valid_pair m1 d1 -> valid_pair m2 d2 ->
  index daysInMonth m1 = Some len -> d1 <= len ->
  earlier m1 d1 m2 d2 ->
  ToOrdinal m1 d1 < ToOrdinal m2 d2.
Proof.
  intros [Hm1 Hd1] [Hm2 Hd2] Hlen Hle Hearlier.
  rewrite (ToOrdinal_split m1 d1), (ToOrdinal_split m2 d2).
  destruct Hearlier as [Hlt | [-> Hlt]]; [| lia].
  assert (Hnext := ToOrdinal_next_month m1 len ltac:(lia) Hlen).
  assert (Hmono := ToOrdinal_month_mono (m1 + 1) m2 ltac:(lia) ltac:(lia)).
  rewrite (ToOrdinal_split (m1 + 1) 1), (ToOrdinal_split m1 len) in Hnext.
  lia.
Qed.

(** On two boundaries that [validateDate] accepts the ordinal follows the
    calendar: the earlier date has the strictly smaller ordinal, and two
    boundaries have the same ordinal only if they are the same date. *)
Theorem validated_ordinals_follow_calendar (s1 s2 : string)
    (m1 d1 m2 d2 : Z) :
  validateDate s1 = Some no_error -> validateDate s2 = Some no_error ->
  ParseMonthDay s1 = Ok (m1, d1) -> ParseMonthDay s2 = Ok (m2, d2) ->
  exists o1 o2,
    monthDayToDOY m1 d1 = Some o1 /\
    monthDayToDOY m2 d2 = Some o2 /\
    (earlier m1 d1 m2 d2 -> o1 < o2) /\
    (o1 = o2 -> m1 = m2 /\ d1 = d2).
Proof.
  intros Hv1 Hv2 Hp1 Hp2.
  apply validateDate_Ok_iff in Hv1, Hv2.
  destruct Hv1 as (m1' & d1' & Hp1' & max1 & Hi1 & Hle1).
  destruct Hv2 as (m2' & d2' & Hp2' & max2 & Hi2 & Hle2).
  rewrite Hp1 in Hp1'. injection Hp1' as <- <-.
  rewrite Hp2 in Hp2'. injection Hp2' as <- <-.
  assert (Hval1 := ParseMonthDay_valid _ _ _ Hp1).
  assert (Hval2 := ParseMonthDay_valid _ _ _ Hp2).
  destruct (index_maxDays m1 (proj1 Hval1)) as (x1 & Hx1 & Hy1).
  destruct (index_maxDays m2 (proj1 Hval2)) as (x2 & Hx2 & Hy2).
  rewrite Hi1 in Hx1. injection Hx1 as <-.
  rewrite Hi2 in Hx2. injection Hx2 as <-.
  assert (Hlt12 := monthDayToDOY_strictly_monotone_aux m1 d1 m2 d2 max1
                     Hval1 Hval2 Hy1 Hle1).
  assert (Hlt21 := monthDayToDOY_strictly_monotone_aux m2 d2 m1 d1 max2
                     Hval2 Hval1 Hy2 Hle2).
  exists (ToOrdinal m1 d1), (ToOrdinal m2 d2).
  split; [apply (monthDayToDOY_ToOrdinal _ _ Hval1) |].
  split; [apply (monthDayToDOY_ToOrdinal _ _ Hval2) |].
  split; [exact Hlt12 |].
  intros Heq. unfold earlier in Hlt12, Hlt21.
  destruct (Z.lt_trichotomy m1 m2) as [Hm | [Hm | Hm]].
  - specialize (Hlt12 (or_introl Hm)). lia.
  - subst m2. split; [reflexivity |].
    destruct (Z.lt_trichotomy d1 d2) as [Hd | [Hd | Hd]]; [| exact Hd |].
    + specialize (Hlt12 (or_intror (conj eq_refl Hd))). lia.
    + specialize (Hlt21 (or_intror (conj eq_refl Hd))). lia.
  - specialize (Hlt21 (or_introl Hm)). lia.
Qed.

Lemma validated_ordinals_follow_calendar_witness :
  validateDate "02-29" = Some no_error /\
  validateDate "03-01" = Some no_error /\
  ParseMonthDay "02-29" = Ok (2, 29) /\
  ParseMonthDay "03-01" = Ok (3, 1) /\
  exists o1 o2,
    monthDayToDOY 2 29 = Some o1 /\
    monthDayToDOY 3 1 = Some o2 /\
    (earlier 2 29 3 1 -> o1 < o2) /\
    (o1 = o2 -> 2 = 3 /\ 29 = 1).
Proof.
  assert (Hv1 : validateDate "02-29" = Some no_error) by reflexivity.
  assert (Hv2 : validateDate "03-01" = Some no_error) by reflexivity.
  assert (Hp1 : ParseMonthDay "02-29" = Ok (2, 29)) by reflexivity.
  assert (Hp2 : ParseMonthDay "03-01" = Ok (3, 1)) by reflexivity.
  split; [exact Hv1 |]. split; [exact Hv2 |].
  split; [exact Hp1 |]. split; [exact Hp2 |].
  apply (validated_ordinals_follow_calendar "02-29" "03-01" 2 29 3 1
           Hv1 Hv2 Hp1 Hp2).
Defined.

(** ** The two regular expressions *)

Lemma in_all_chars (c : ascii) : In c all_chars.
Proof.
  unfold all_chars. rewrite <- (ascii_nat_embedding c).
  apply in_map. apply in_seq.
  pose proof (nat_ascii_bounded c). lia.
Qed.

Lemma in_class_chars (c : ascii) (ranges : list (ascii * ascii)) :
  in_class c ranges = true -> In c (chars_of_class ranges).
Proof.
  intros H. apply filter_In. split; [apply in_all_chars | exact H].
Qed.

Lemma accept_Lit (c : ascii) (s : string) (k : string -> bool) :
  accept (Lit c) s k = true -> exists s', s = String c s' /\ k s' = true.
Proof.
  destruct s as [| c' s']; simpl; [discriminate |].
  intros H. apply andb_true_iff in H. destruct H as [Hc Hk].
  apply Ascii.eqb_eq in Hc. subst c'. eauto.
Qed.

Lemma accept_Class (ranges : list (ascii * ascii)) (s : string)
    (k : string -> bool) :
  accept (Class ranges) s k = true ->
  exists c s', s = String c s' /\ In c (chars_of_class ranges) /\
               k s' = true.
Proof.
  destruct s as [| c' s']; simpl; [discriminate |].
  intros H. apply andb_true_iff in H. destruct H as [Hc Hk].
  exists c', s'. split; [reflexivity |].
  split; [apply in_class_chars; exact Hc | exact Hk].
Qed.

Lemma accept_Cat (r1 r2 : regex) (s : string) (k : string -> bool) :
  accept (Cat r1 r2) s k = accept r1 s (fun s' => accept r2 s' k).
Proof. reflexivity. Qed.

Lemma accept_Alt (r1 r2 : regex) (s : string) (k : string -> bool) :
  accept (Alt r1 r2) s k = true ->
  accept r1 s k = true \/ accept r2 s k = true.
Proof. simpl. apply orb_true_iff. Qed.

(** Inverting a match of an expression made of literals, classes,
    concatenations and alternations: the string becomes a string of
    characters each drawn from a finite list. *)
Ltac regex_inv H :=
  cbv beta in H;
  lazymatch type of H with
  | accept (Cat _ _) _ _ = true => rewrite accept_Cat in H; regex_inv H
  | accept (Alt _ _) _ _ = true =>
      apply accept_Alt in H; destruct H as [H | H]; regex_inv H
  | accept (Lit _) _ _ = true =>
      let s' := fresh "s" in
      apply accept_Lit in H; destruct H as (s' & -> & H); regex_inv H
  | accept (Class _) _ _ = true =>
      let c := fresh "c" in
      let s' := fresh "s" in
      let Hc := fresh "Hc" in
      apply accept_Class in H; destruct H as (c & s' & -> & Hc & H);
      vm_compute in Hc;
      repeat (destruct Hc as [<- | Hc]); [.. | destruct Hc];
      regex_inv H
  | match ?s with EmptyString => true | String _ _ => false end = true =>
      destruct s; [clear H | discriminate H]
  | _ => idtac
  end.

Lemma dateRegex_length (s : string) :
  MatchString dateRegex s = true ->
  String.length s = 5%nat /\ exists month day, ParseMonthDay s = Ok (month, day).
Proof.
  unfold MatchString, dateRegex. intros H.
  regex_inv H; (split; [reflexivity |]); eexists _, _; reflexivity.
Qed.

(** Every string [dateRegex] accepts is five characters long and parses
    with [ParseMonthDay]; on such a string [validateDate] returns [nil]
    or the error of a day that does not exist in its month, never one of
    its format, month or day-range errors. *)
Theorem dateRegex_accepts_parse (s : string) :
  MatchString dateRegex s = true ->
  String.length s = 5%nat /\
  exists month day,
    ParseMonthDay s = Ok (month, day) /\
    (validateDate s = Some no_error \/
     validateDate s
     = Some (Err (Errorf "day %d is invalid for month %d"
                    [OString (Itoa day); OString (Itoa month)]))).
Proof.
  unfold MatchString, dateRegex. intros H.
  regex_inv H;
    (split; [reflexivity |]);
    eexists _, _; (split; [reflexivity |]);
    first [left; reflexivity | right; reflexivity].
Qed.

Lemma dateRegex_accepts_parse_witness :
  MatchString dateRegex "02-30" = true /\
  String.length "02-30" = 5%nat /\
  exists month day,
    ParseMonthDay "02-30" = Ok (month, day) /\
    (validateDate "02-30" = Some no_error \/
     validateDate "02-30"
     = Some (Err (Errorf "day %d is invalid for month %d"
                    [OString (Itoa day); OString (Itoa month)]))).
Proof.
  assert (Hm : MatchString dateRegex "02-30" = true) by reflexivity.
  split; [exact Hm |].
  apply (dateRegex_accepts_parse "02-30" Hm).
Defined.

Lemma accept_star_all (ranges : list (ascii * ascii)) (s : string) :
  accept_star ranges s
    (fun rest => match rest with EmptyString => true | _ => false end)
  = forallb (fun c => in_class c ranges) (list_ascii_of_string s).
Proof.
  induction s as [| c s IH]; simpl; [reflexivity |].
  rewrite IH. reflexivity.
Qed.

Lemma in_class_letter (c : ascii) :
  in_class c [("a", "z"); ("A", "Z")]%char = true <-> letter c.
Proof.
  unfold in_class, in_range, letter. simpl.
  rewrite !orb_true_iff, !andb_true_iff, !N.leb_le. intuition lia.
Qed.

Lemma in_class_safe (c : ascii) :
  in_class c [("a", "z"); ("A", "Z"); ("0", "9"); ("_", "_"); ("-", "-")]%char
  = true <-> safe_char c.
Proof.
  unfold in_class, in_range, safe_char, letter. simpl.
  rewrite !orb_true_iff, !andb_true_iff, !N.leb_le. intuition lia.
Qed.

(** [paramRegex] accepts exactly a letter followed by letters, digits,
    underscores and hyphens. *)
Lemma paramRegex_iff (s : string) :
  MatchString paramRegex s = true <->
  exists c rest,
    s = String c rest /\ letter c /\
    Forall safe_char (list_ascii_of_string rest).
Proof.
  unfold MatchString, paramRegex.
  destruct s as [| c rest]; cbn [accept].
  - split; [discriminate | intros (c & rest & H & _); discriminate H].
  - rewrite andb_true_iff, accept_star_all, in_class_letter, forallb_forall.
    split.
    + intros [Hc Hrest]. exists c, rest. split; [reflexivity |].
      split; [exact Hc |]. apply List.Forall_forall. intros x Hx.
      apply in_class_safe. apply Hrest. exact Hx.
    + intros (c' & rest' & [= <- <-] & Hc & Hrest).
      split; [exact Hc |]. intros x Hx. apply in_class_safe.
      rewrite List.Forall_forall in Hrest. apply Hrest. exact Hx.
Qed.

Lemma SanitizeParam_valid (TrimSpace : string -> string)
    (param q : string) :
  SanitizeParam TrimSpace param = (q, true) ->
  exists c rest,
    q = String c rest /\ letter c /\
    Forall safe_char (list_ascii_of_string rest).
Proof.
  unfold SanitizeParam.
  destruct (String.eqb (TrimSpace param) ""); [discriminate |].
  destruct (MatchString paramRegex (TrimSpace param)) eqn:Em; simpl;
    [| discriminate].
  intros [= <-]. apply paramRegex_iff. exact Em.
Qed.

(** [SanitizeParam] returns a parameter as valid exactly when the trimmed
    parameter is a letter followed by letters, digits, underscores and
    hyphens, and then returns the trimmed parameter; with an invalid
    parameter it returns the empty string. *)
Theorem SanitizeParam_safe (TrimSpace : string -> string)
    (param q : string) :
  (SanitizeParam TrimSpace param = (q, true) <->
   q = TrimSpace param /\
   exists c rest,
     q = String c rest /\ letter c /\
     Forall safe_char (list_ascii_of_string rest)) /\
  (SanitizeParam TrimSpace param = (q, false) -> q = EmptyString).
Proof.
  unfold SanitizeParam.
  destruct (String.eqb_spec (TrimSpace param) "") as [He | Hne].
  - split; [| intros [= <-]; reflexivity].
    split; [discriminate |].
    intros (-> & c & rest & Hq & _). rewrite He in Hq. discriminate Hq.
  - destruct (MatchString paramRegex (TrimSpace param)) eqn:Em; simpl.
    + split; [| discriminate].
      split.
      * intros [= <-]. split; [reflexivity |].
        apply paramRegex_iff. exact Em.
      * intros [-> _]. reflexivity.
    + split; [| intros [= <-]; reflexivity].
      split; [discriminate |].
      intros (-> & Hshape). apply paramRegex_iff in Hshape.
      rewrite Hshape in Em. discriminate Em.
Qed.

Lemma SanitizeParam_safe_witness :
  SanitizeParam (fun s => s) "param<script>" = ("", false) /\
  "" = EmptyString.
Proof.
  assert (H : SanitizeParam (fun s => s) "param<script>" = ("", false))
    by reflexivity.
  split; [exact H |].
  apply (proj2 (SanitizeParam_safe (fun s => s) "param<script>" "") H).
Defined.

(** ** The passthrough parameters of the server *)

Lemma map_get_set {V : Type} (m : map_ V) (k k' : string) (v : V) :
  map_get (map_set m k v) k'
  = if String.eqb k k' then Some v else map_get m k'.
Proof.
  induction m as [| [k0 v0] m IH]; simpl.
  - destruct (String.eqb k k'); reflexivity.
  - destruct (String.eqb_spec k0 k) as [-> | Hne]; simpl.
    + destruct (String.eqb k k'); reflexivity.
    + rewrite IH. destruct (String.eqb_spec k0 k') as [-> | Hne'];
        [| reflexivity].
      destruct (String.eqb_spec k k') as [-> | _]; [| reflexivity].
      destruct Hne. reflexivity.
Qed.

Lemma New_params_loop_get (TrimSpace : string -> string)
    (params : list string) :
  forall (m : map_ bool) (k : string),
    (forall k', map_get m k' <> Some false) ->
    (map_get (server.New_params_loop TrimSpace params m) k = Some true <->
     map_get m k = Some true \/
     exists p, In p params /\ SanitizeParam TrimSpace p = (k, true)) /\
    map_get (server.New_params_loop TrimSpace params m) k <> Some false.
Proof.
  induction params as [| p params IH]; intros m k Hm; simpl.
  - split; [| apply Hm]. split; [auto |].
    intros [H | (p & [] & _)]. exact H.
  - destruct (SanitizeParam TrimSpace p) as [sanitized valid] eqn:Es.
    set (m' := if valid then map_set m sanitized true else m).
    assert (Hm' : forall k', map_get m' k' <> Some false).
    { intros k'. subst m'. destruct valid; [| apply Hm].
      rewrite map_get_set. destruct (String.eqb sanitized k');
        [discriminate | apply Hm]. }
    destruct (IH m' k Hm') as [IHget IHfalse].
    split; [| exact IHfalse].
    rewrite IHget. subst m'. split.
    + intros [Hget | (p' & Hin & Hp')].
      * destruct valid; [| left; exact Hget].
        rewrite map_get_set in Hget.
        destruct (String.eqb_spec sanitized k) as [-> | _];
          [| left; exact Hget].
        right. exists p. split; [left; reflexivity | exact Es].
      * right. exists p'. split; [right; exact Hin | exact Hp'].
    + intros [Hget | (p' & [<- | Hin] & Hp')].
      * left. destruct valid; [| exact Hget].
        rewrite map_get_set. destruct (String.eqb sanitized k);
          [reflexivity | exact Hget].
      * left. rewrite Es in Hp'. injection Hp' as -> ->.
        rewrite map_get_set, String.eqb_refl. reflexivity.
      * right. exists p'. split; [exact Hin | exact Hp'].
Qed.

(** [server.New] always returns a server, with the scheduler, the kiosk
    URL and the port it was given; a name is a key of its passthrough map
    exactly when some configured parameter sanitizes to it, so every key
    is a letter followed by letters, digits, underscores and hyphens, and
    no key maps to [false]. *)
Theorem server_New_passthrough (TrimSpace : string -> string)
    (cfg : Config) (sched : Scheduler) :
  exists srv,
    server.New TrimSpace cfg sched = Ok srv /\
    server.scheduler_ srv = sched /\
    server.kioskURL srv = KioskURL cfg /\
    server.port srv = Port cfg /\
    forall k,
      (map_get (server.passthroughParams srv) k = Some true <->
       exists p, In p (PassthroughParams cfg) /\
                 SanitizeParam TrimSpace p = (k, true)) /\
      map_get (server.passthroughParams srv) k <> Some false /\
      (map_get (server.passthroughParams srv) k = Some true ->
       exists c rest,
         k = String c rest /\ letter c /\
         Forall safe_char (list_ascii_of_string rest)).
Proof.
  eexists. split; [reflexivity |]. simpl.
  split; [reflexivity |]. split; [reflexivity |]. split; [reflexivity |].
  intros k.
  destruct (New_params_loop_get TrimSpace (PassthroughParams cfg) [] k)
    as [Hget Hfalse]; [intros k'; discriminate |].
  assert (Hiff : map_get (server.New_params_loop TrimSpace
                            (PassthroughParams cfg) []) k = Some true <->
                 exists p, In p (PassthroughParams cfg) /\
                           SanitizeParam TrimSpace p = (k, true)).
  { rewrite Hget. split; [| auto]. intros [H | H]; [discriminate H | exact H]. }
  split; [exact Hiff |]. split; [exact Hfalse |].
  intros Hk. apply Hiff in Hk. destruct Hk as (p & _ & Hp).
  apply (SanitizeParam_valid TrimSpace p k Hp).
Qed.

Lemma server_New_passthrough_witness :
  exists srv,
    server.New (fun s => s)
      {| KioskURL := "https://kiosk.example.com";
         DefaultAlbum := "default-album"; Port := 8080; LogLevel := "info";
         PassthroughParams := ["transition"; "my param"; "duration"];
         Schedule := []; MetricsUsername := ""; MetricsPassword := "" |}
      overlap_scheduler = Ok srv /\
    map_get (server.passthroughParams srv) "transition" = Some true /\
    map_get (server.passthroughParams srv) "my param" = None.
Proof.
  destruct (server_New_passthrough (fun s => s)
      {| KioskURL := "https://kiosk.example.com";
         DefaultAlbum := "default-album"; Port := 8080; LogLevel := "info";
         PassthroughParams := ["transition"; "my param"; "duration"];
         Schedule := []; MetricsUsername := ""; MetricsPassword := "" |}
      overlap_scheduler) as (srv & Hsrv & _).
  exists srv. split; [exact Hsrv |].
  injection Hsrv as <-. split; reflexivity.
Defined.

(** ** A validated configuration always gives a scheduler *)

Lemma ScheduleEntry_Validate_returns (TrimSpace : string -> string)
    (e : ScheduleEntry) :
  exists r, ScheduleEntry_Validate TrimSpace e = Some r.
Proof.
  unfold ScheduleEntry_Validate.
  destruct (String.eqb (TrimSpace (Name e)) ""); [eauto |].
  destruct (String.eqb (TrimSpace (Album e)) ""); [eauto |].
  destruct (MatchString dateRegex (Start e)); simpl; [| eauto].
  destruct (MatchString dateRegex (End_ e)); simpl; [| eauto].
  destruct (validateDate_returns (Start e)) as [[[] | err] ->]; simpl;
    [| eauto].
  destruct (validateDate_returns (End_ e)) as [[[] | err] ->]; simpl; eauto.
Qed.

Lemma ScheduleEntry_Validate_accepts (TrimSpace : string -> string)
    (e : ScheduleEntry) :
  ScheduleEntry_Validate TrimSpace e = Some no_error ->
  TrimSpace (Name e) <> EmptyString /\
  TrimSpace (Album e) <> EmptyString /\
  String.length (Start e) = 5%nat /\
  String.length (End_ e) = 5%nat /\
  exists sm sd em ed,
    ParseMonthDay (Start e) = Ok (sm, sd) /\
    ParseMonthDay (End_ e) = Ok (em, ed) /\
    within_month sm sd /\ within_month em ed.
Proof.
  unfold ScheduleEntry_Validate.
  destruct (String.eqb_spec (TrimSpace (Name e)) "") as [| Hname];
    [discriminate |].
  destruct (String.eqb_spec (TrimSpace (Album e)) "") as [| Halbum];
    [discriminate |].
  destruct (MatchString dateRegex (Start e)) eqn:Hrs; simpl;
    [| discriminate].
  destruct (MatchString dateRegex (End_ e)) eqn:Hre; simpl;
    [| discriminate].
  destruct (validateDate (Start e)) as [[[] | err] |] eqn:Hvs; simpl;
    try discriminate.
  destruct (validateDate (End_ e)) as [[[] | err] |] eqn:Hve; simpl;
    try discriminate.
  intros _.
  apply validateDate_Ok_iff in Hvs, Hve.
  destruct Hvs as (sm & sd & Hps & Hws).
  destruct Hve as (em & ed & Hpe & Hwe).
  split; [exact Hname |]. split; [exact Halbum |].
  split; [apply (proj1 (dateRegex_length (Start e) Hrs)) |].
  split; [apply (proj1 (dateRegex_length (End_ e) Hre)) |].
  exists sm, sd, em, ed. auto.
Qed.

(** [ScheduleEntry.Validate] never panics, and an entry it accepts has a
    name and an album that are not blank and two boundaries of five
    characters that [ParseMonthDay] parses to days that exist in their
    months. *)
Theorem ScheduleEntry_Validate_parses (TrimSpace : string -> string)
    (e : ScheduleEntry) :
  (exists r, ScheduleEntry_Validate TrimSpace e = Some r) /\
  (ScheduleEntry_Validate TrimSpace e = Some no_error ->
   TrimSpace (Name e) <> EmptyString /\
   TrimSpace (Album e) <> EmptyString /\
   String.length (Start e) = 5%nat /\
   String.length (End_ e) = 5%nat /\
   exists sm sd em ed,
     ParseMonthDay (Start e) = Ok (sm, sd) /\
     ParseMonthDay (End_ e) = Ok (em, ed) /\
     within_month sm sd /\ within_month em ed).
Proof.
  split; [apply ScheduleEntry_Validate_returns |].
  apply ScheduleEntry_Validate_accepts.
Qed.

Lemma ScheduleEntry_Validate_parses_witness :
  ScheduleEntry_Validate (fun s => s)
    (mkEntry "christmas" "christmas-album" "11-15" "01-01")
  = Some no_error /\
  "christmas" <> EmptyString /\
  "christmas-album" <> EmptyString /\
  String.length "11-15" = 5%nat /\
  String.length "01-01" = 5%nat /\
  exists sm sd em ed,
    ParseMonthDay "11-15" = Ok (sm, sd) /\
    ParseMonthDay "01-01" = Ok (em, ed) /\
    within_month sm sd /\ within_month em ed.
Proof.
  assert (H : ScheduleEntry_Validate (fun s => s)
                (mkEntry "christmas" "christmas-album" "11-15" "01-01")
              = Some no_error) by reflexivity.
  split; [exact H |].
  apply (proj2 (ScheduleEntry_Validate_parses (fun s => s)
                  (mkEntry "christmas" "christmas-album" "11-15" "01-01"))
           H).
Defined.

Lemma Validate_loop_Ok (TrimSpace : string -> string)
    (entries : list ScheduleEntry) :
  forall i,
    Validate_loop TrimSpace i entries = Some no_error ->
    Forall (fun e => ScheduleEntry_Validate TrimSpace e = Some no_error)
      entries.
Proof.
  induction entries as [| e entries IH]; intros i H; [constructor |].
  simpl in H.
  destruct (ScheduleEntry_Validate TrimSpace e) as [[[] | err] |] eqn:He;
    simpl in H; try discriminate.
  constructor; [exact He | apply (IH (i + 1) H)].
Qed.

Lemma Validate_loop_returns (TrimSpace : string -> string)
    (entries : list ScheduleEntry) :
  forall i, exists r, Validate_loop TrimSpace i entries = Some r.
Proof.
  induction entries as [| e entries IH]; intros i; simpl; [eauto |].
  destruct (ScheduleEntry_Validate_returns TrimSpace e) as [[[] | err] ->];
    simpl; [apply IH | eauto].
Qed.

(** [Config.Validate] never panics, and a configuration it accepts has a
    port in [1, 65535] and a default album that is not blank, and [New]
    builds a scheduler from it, with one range per entry, whose
    boundaries are all days that exist in their months. *)
Theorem Config_Validate_New (TrimSpace : string -> string)
    (url_Parse : string -> result (string * string)) (cfg : Config) :
  (exists r, Config_Validate TrimSpace url_Parse cfg = Some r) /\
  (Config_Validate TrimSpace url_Parse cfg = Some no_error ->
   1 <= Port cfg <= 65535 /\
   TrimSpace (DefaultAlbum cfg) <> EmptyString /\
   exists s,
     New cfg = Some (Ok s) /\
     GetScheduleCount s = Z.of_nat (length (Schedule cfg)) /\
     forall r, In r (ranges s) ->
       within_month (startMonth r) (startDay r) /\
       within_month (endMonth r) (endDay r)).
Proof.
  unfold Config_Validate. split.
  - destruct (String.eqb (TrimSpace (KioskURL cfg)) ""); [eauto |].
    destruct (url_Parse (KioskURL cfg)) as [[Scheme Host] | err]; [| eauto].
    destruct (negb (String.eqb Scheme "http")
              && negb (String.eqb Scheme "https")); [eauto |].
    destruct (String.eqb Host ""); [eauto |].
    destruct (String.eqb (TrimSpace (DefaultAlbum cfg)) ""); [eauto |].
    destruct ((Port cfg <? 1) || (Port cfg >? 65535)); [eauto |].
    apply Validate_loop_returns.
  - destruct (String.eqb (TrimSpace (KioskURL cfg)) ""); [discriminate |].
    destruct (url_Parse (KioskURL cfg)) as [[Scheme Host] | err];
      [| discriminate].
    destruct (negb (String.eqb Scheme "http")
              && negb (String.eqb Scheme "https")); [discriminate |].
    destruct (String.eqb Host ""); [discriminate |].
    destruct (String.eqb_spec (TrimSpace (DefaultAlbum cfg)) "")
      as [| Hdefault]; [discriminate |].
    destruct ((Port cfg <? 1) || (Port cfg >? 65535)) eqn:Hport;
      [discriminate |].
    intros Hloop. apply bounds_test in Hport.
    apply Validate_loop_Ok in Hloop.
    split; [exact Hport |]. split; [exact Hdefault |].
    assert (Hwithin : Forall (fun e =>
              exists sm sd em ed,
                ParseMonthDay (Start e) = Ok (sm, sd) /\
                ParseMonthDay (End_ e) = Ok (em, ed) /\
                within_month sm sd /\ within_month em ed) (Schedule cfg)).
    { eapply Forall_impl; [| exact Hloop]. intros e He. simpl in He.
      apply (ScheduleEntry_Validate_accepts TrimSpace e He). }
    assert (Hparses : Forall parses (Schedule cfg)).
    { eapply Forall_impl; [| exact Hwithin].
      intros e (sm & sd & em & ed & Hs & He & _). exists sm, sd, em, ed.
      auto. }
    destruct (New_loop_parses (Schedule cfg) Hparses []) as (new & HN).
    assert (HNew : New cfg
                   = Some (Ok {| defaultAlbum := DefaultAlbum cfg;
                                 ranges := [] ++ new |}))
      by (unfold New; rewrite HN; reflexivity).
    eexists. split; [exact HNew |].
    destruct (New_Ok_inv _ _ HNew) as [_ HF].
    split.
    { unfold GetScheduleCount. f_equal. symmetry.
      eapply Forall2_length. exact HF. }
    intros r Hin.
    destruct (New_range_compiled _ _ r HNew Hin) as (e & Hine & Hc).
    rewrite List.Forall_forall in Hwithin.
    destruct (Hwithin e Hine) as (sm & sd & em & ed & Hs & He & Hws & Hwe).
    destruct Hc as (_ & _ & Hs' & He' & _).
    rewrite Hs in Hs'. injection Hs' as <- <-.
    rewrite He in He'. injection He' as <- <-.
    split; assumption.
Qed.

Lemma Config_Validate_New_witness :
  Config_Validate (fun s => s)
    (fun _ => Ok ("https", "kiosk.example.com")) overlap_cfg
  = Some no_error /\
  1 <= Port overlap_cfg <= 65535 /\
  DefaultAlbum overlap_cfg <> EmptyString /\
  exists s,
    New overlap_cfg = Some (Ok s) /\
    GetScheduleCount s = Z.of_nat (length (Schedule overlap_cfg)) /\
    forall r, In r (ranges s) ->
      within_month (startMonth r) (startDay r) /\
      within_month (endMonth r) (endDay r).
Proof.
  assert (H : Config_Validate (fun s => s)
                (fun _ => Ok ("https", "kiosk.example.com")) overlap_cfg
              = Some no_error) by reflexivity.
  split; [exact H |].
  apply (proj2 (Config_Validate_New (fun s => s)
                  (fun _ => Ok ("https", "kiosk.example.com")) overlap_cfg)
           H).
Defined.

Lemma Validate_loop_first_error (TrimSpace : string -> string)
    (pre : list ScheduleEntry) (e : ScheduleEntry)
    (post : list ScheduleEntry) (err : error) :
  Forall (fun e' => ScheduleEntry_Validate TrimSpace e' = Some no_error) pre ->
  ScheduleEntry_Validate TrimSpace e = Some (Err err) ->
  forall i,
    Validate_loop TrimSpace i (pre ++ e :: post)
    = Some (Err (Errorf "schedule entry %d (%s): %w"
                   [OString (Itoa (i + Z.of_nat (length pre)));
                    OString (Name e); OError err])).
Proof.
  intros Hpre He. induction Hpre as [| e' pre He' _ IH]; intros i; simpl.
  - rewrite He. simpl. rewrite Z.add_0_r. reflexivity.
  - rewrite He'. simpl. rewrite IH. do 4 f_equal. f_equal. f_equal. lia.
Qed.

(** When the fields of a configuration other than the schedule pass
    [Config.Validate], the schedule is checked in order and the error is
    that of the first entry [ScheduleEntry.Validate] refuses, wrapped
    with its position, counted from zero, and its name. *)
Theorem Config_Validate_first_bad_entry (TrimSpace : string -> string)
    (url_Parse : string -> result (string * string)) (cfg : Config)
    (pre : list ScheduleEntry) (e : ScheduleEntry)
    (post : list ScheduleEntry) (err : error) :
  Config_Validate TrimSpace url_Parse (with_schedule cfg []) = Some no_error ->
  Forall (fun e' => ScheduleEntry_Validate TrimSpace e' = Some no_error) pre ->
  ScheduleEntry_Validate TrimSpace e = Some (Err err) ->
  Config_Validate TrimSpace url_Parse (with_schedule cfg (pre ++ e :: post))
  = Some (Err (Errorf "schedule entry %d (%s): %w"
                 [OString (Itoa (Z.of_nat (length pre)));
                  OString (Name e); OError err])).
Proof.
  unfold Config_Validate. simpl. intros H0 Hpre He.
  destruct (String.eqb (TrimSpace (KioskURL cfg)) ""); [discriminate |].
  destruct (url_Parse (KioskURL cfg)) as [[Scheme Host] | err0];
    [| discriminate].
  destruct (negb (String.eqb Scheme "http")
            && negb (String.eqb Scheme "https")); [discriminate |].
  destruct (String.eqb Host ""); [discriminate |].
  destruct (String.eqb (TrimSpace (DefaultAlbum cfg)) ""); [discriminate |].
  destruct ((Port cfg <? 1) || (Port cfg >? 65535)); [discriminate |].
  apply (Validate_loop_first_error TrimSpace pre e post err Hpre He 0).
Qed.

Lemma Config_Validate_first_bad_entry_witness :
  Config_Validate (fun s => s) (fun _ => Ok ("https", "kiosk.example.com"))
    (with_schedule overlap_cfg []) = Some no_error /\
  Forall (fun e' => ScheduleEntry_Validate (fun s => s) e' = Some no_error)
    [mkEntry "special" "special-album" "12-20" "12-26"] /\
  ScheduleEntry_Validate (fun s => s)
    (mkEntry "leap" "leap-album" "02-30" "03-01")
  = Some (Err (Errorf "invalid start date: %w"
                 [OError (Errorf "day %d is invalid for month %d"
                            [OString "30"; OString "2"])])) /\
  Config_Validate (fun s => s) (fun _ => Ok ("https", "kiosk.example.com"))
    (with_schedule overlap_cfg
       ([mkEntry "special" "special-album" "12-20" "12-26"]
        ++ mkEntry "leap" "leap-album" "02-30" "03-01" :: []))
  = Some (Err (Errorf "schedule entry %d (%s): %w"
                 [OString (Itoa (Z.of_nat (length
                    [mkEntry "special" "special-album" "12-20" "12-26"])));
                  OString (Name (mkEntry "leap" "leap-album" "02-30" "03-01"));
                  OError (Errorf "invalid start date: %w"
                    [OError (Errorf "day %d is invalid for month %d"
                               [OString "30"; OString "2"])])])).
Proof.
  assert (H0 : Config_Validate (fun s => s)
                 (fun _ => Ok ("https", "kiosk.example.com"))
                 (with_schedule overlap_cfg []) = Some no_error)
    by reflexivity.
  assert (Hpre : Forall (fun e' => ScheduleEntry_Validate (fun s => s) e'
                                   = Some no_error)
                   [mkEntry "special" "special-album" "12-20" "12-26"])
    by (repeat constructor).
  assert (He : ScheduleEntry_Validate (fun s => s)
                 (mkEntry "leap" "leap-album" "02-30" "03-01")
               = Some (Err (Errorf "invalid start date: %w"
                              [OError (Errorf "day %d is invalid for month %d"
                                         [OString "30"; OString "2"])])))
    by reflexivity.
  split; [exact H0 |]. split; [exact Hpre |]. split; [exact He |].
  apply (Config_Validate_first_bad_entry (fun s => s)
           (fun _ => Ok ("https", "kiosk.example.com")) overlap_cfg
           [mkEntry "special" "special-album" "12-20" "12-26"]
           (mkEntry "leap" "leap-album" "02-30" "03-01") [] _ H0 Hpre He).
Defined.
